(** * Telegram business store: connection registry and per-chat message log

  A shallow embedding of [connection-store.ts] and [message-store.ts]
  (with the record shapes of [types.ts]) and the properties of the
  canonical view, pagination, pruning, search, chat metadata and the
  active connection.

  Conventions of the embedding:
  - JavaScript numbers that hold ids, counts and timestamps are [Z];
  - an optional property is an [option]; [None] is [undefined] (a key that
    is absent and a key that holds [undefined] read the same);
  - strings are sequences of 8-bit characters; case folding and white
    space are those of ASCII;
  - the file system is a finite map from paths to file contents, with a
    journal of the writes performed;
  - [JSON.parse], [JSON.stringify] and [Number] are parameters of the
    development: nothing is assumed about them except where a statement
    says so. *)

From Stdlib Require Import ZArith Ascii String.
From stdpp Require Import base option list gmap strings pretty sorting.

Local Open Scope Z_scope.

(** ** JavaScript strings *)

Module Js.

Definition LF : ascii := "010"%char.

(** [s.split(sep)] for a one-character separator: the pieces between the
    separators, an empty piece after a trailing separator included. *)
Fixpoint split (sep : ascii) (s : string) : list string :=
  match s with
  | EmptyString => [EmptyString]
  | String c s' =>
      if decide (c = sep) then EmptyString :: split sep s'
      else match split sep s' with
           | [] => [String c EmptyString]
           | piece :: pieces => String c piece :: pieces
           end
  end.

(** [pieces.join(sep)]. *)
Fixpoint join (sep : string) (pieces : list string) : string :=
  match pieces with
  | [] => EmptyString
  | [piece] => piece
  | piece :: rest => piece +:+ sep +:+ join sep rest
  end.

(** The ASCII part of ECMAScript's WhiteSpace and LineTerminator. *)
Definition isWhiteSpace (c : ascii) : bool :=
  match c with
  | "009"%char | "010"%char | "011"%char | "012"%char | "013"%char
  | " "%char => true
  | _ => false
  end.

Fixpoint trimStart (s : string) : string :=
  match s with
  | String c s' => if isWhiteSpace c then trimStart s' else s
  | EmptyString => EmptyString
  end.

Definition trim (s : string) : string :=
  String.rev (trimStart (String.rev (trimStart s))).

(** Truthiness of a string: the empty string is falsy. *)
Definition truthy (s : string) : bool :=
  match s with EmptyString => false | String _ _ => true end.

Definition toLowerChar (c : ascii) : ascii :=
  let n := nat_of_ascii c in
  if ((65 <=? n)%nat && (n <=? 90)%nat)%bool then ascii_of_nat (n + 32) else c.

Fixpoint toLowerCase (s : string) : string :=
  match s with
  | EmptyString => EmptyString
  | String c s' => String (toLowerChar c) (toLowerCase s')
  end.

Fixpoint startsWith (s needle : string) {struct needle} : bool :=
  match needle, s with
  | EmptyString, _ => true
  | String _ _, EmptyString => false
  | String a needle', String b s' =>
      if decide (a = b) then startsWith s' needle' else false
  end.

(** [s.includes(needle)]. *)
Fixpoint includes (s needle : string) : bool :=
  if startsWith s needle then true
  else match s with
       | EmptyString => false
       | String _ s' => includes s' needle
       end.

(** [l.slice(start)]: a negative [start] counts from the end. *)
Definition slice {A} (start : Z) (l : list A) : list A :=
  let len := Z.of_nat (length l) in
  let k := if start <? 0 then Z.max (len + start) 0 else Z.min start len in
  drop (Z.to_nat k) l.

(** [l.toSorted(cmp)]: a stable sort by a comparator whose sign orders its
    arguments; an element goes behind the elements it does not precede. *)
Fixpoint insertSorted {A} (cmp : A → A → Z) (x : A) (l : list A) : list A :=
  match l with
  | [] => [x]
  | y :: l' => if cmp x y <=? 0 then x :: l else y :: insertSorted cmp x l'
  end.

Fixpoint toSorted {A} (cmp : A → A → Z) (l : list A) : list A :=
  match l with
  | [] => []
  | x :: l' => insertSorted cmp x (toSorted cmp l')
  end.

(** An insertion-ordered [Map] with number keys, as the list of its
    entries: [set] replaces the value of a key in place and puts a new
    key last. *)
Fixpoint mapSet {A} (k : Z) (v : A) (m : list (Z * A)) : list (Z * A) :=
  match m with
  | [] => [(k, v)]
  | (k', v') :: m' =>
      if decide (k = k') then (k, v) :: m' else (k', v') :: mapSet k v m'
  end.

Definition mapValues {A} (m : list (Z * A)) : list A := m.*2.

Fixpoint mapGet {A} (k : Z) (m : list (Z * A)) : option A :=
  match m with
  | [] => None
  | (k', v) :: m' => if decide (k = k') then Some v else mapGet k m'
  end.

(** A plain object with string keys, as the list of its own properties in
    the order [Object.values] and [JSON.stringify] go through them: the keys
    that are array indices first, in ascending order, then the others in the
    order they were added. The prototype is not part of the list: neither
    of the two looks at it. *)
Definition digitValue (c : ascii) : option N :=
  let n := N_of_ascii c in
  if ((48 <=? n)%N && (n <=? 57)%N)%bool then Some (n - 48)%N else None.

Fixpoint digitsValue (acc : N) (s : string) : option N :=
  match s with
  | EmptyString => Some acc
  | String c s' =>
      match digitValue c with
      | Some d => digitsValue (10 * acc + d)%N s'
      | None => None
      end
  end.

(** The array index a key denotes: a canonical decimal numeral below
    [2^32 - 1]. *)
Definition arrayIndex (key : string) : option N :=
  match key with
  | EmptyString => None
  | String c rest =>
      if decide (c = "0"%char ∧ rest ≠ EmptyString) then None
      else match digitsValue 0 key with
           | Some n => if (n <? 4294967295)%N then Some n else None
           | None => None
           end
  end.

Fixpoint objectGet {A} (k : string) (o : list (string * A)) : option A :=
  match o with
  | [] => None
  | (k', v) :: o' => if decide (k = k') then Some v else objectGet k o'
  end.

Fixpoint objectReplace {A} (k : string) (v : A) (o : list (string * A))
  : list (string * A) :=
  match o with
  | [] => []
  | (k', v') :: o' =>
      if decide (k = k') then (k, v) :: o' else (k', v') :: objectReplace k v o'
  end.

Fixpoint objectInsertIndex {A} (n : N) (k : string) (v : A)
  (o : list (string * A)) : list (string * A) :=
  match o with
  | [] => [(k, v)]
  | (k', v') :: o' =>
      match arrayIndex k' with
      | Some n' =>
          if (n' <? n)%N then (k', v') :: objectInsertIndex n k v o'
          else (k, v) :: o
      | None => (k, v) :: o
      end
  end.

(** The one key that an assignment to a plain object does not add:
    [Object.prototype] has a setter of this name. *)
Definition PROTO : string := "__proto__".

(** [o[k] = v] on a plain object: an own property of that name gets the
    value; otherwise the key [__proto__] reaches the setter that
    [Object.prototype] has for it, which changes the prototype of [o] and
    adds no property, and every other key is added as a new property. *)
Definition objectSet {A} (k : string) (v : A) (o : list (string * A))
  : list (string * A) :=
  if decide (k ∈ o.*1) then objectReplace k v o
  else if decide (k = PROTO) then o
  else match arrayIndex k with
       | Some n => objectInsertIndex n k v o
       | None => o ++ [(k, v)]
       end.

End Js.

(** ** The file system *)

Module Fs.

(** A path is the list of its components; [path.join] appends. *)
Definition join (dir : list string) (names : list string) : list string :=
  dir ++ names.

(** Regular files by path, and the paths written so far (latest first).
    A directory is there when a file lies below it. *)
Record state := State {
  files : gmap (list string) string;
  journal : list (list string)
}.

(** [None] is the exception [readFileSync] throws on a missing file. *)
Definition readFileSync (fs : state) (p : list string) : option string :=
  files fs !! p.

Definition writeFileSync (fs : state) (p : list string) (data : string) : state :=
  {| files := <[p := data]> (files fs); journal := p :: journal fs |}.

Definition appendFileSync (fs : state) (p : list string) (data : string) : state :=
  {| files := <[p := default EmptyString (files fs !! p) +:+ data]> (files fs);
     journal := p :: journal fs |}.

(** [mkdirSync(dir, {recursive: true})]: directories hold no state of
    their own. *)
Definition mkdirSync (fs : state) (dir : list string) : state := fs.

Fixpoint entryUnder (dir p : list string) : option string :=
  match dir, p with
  | [], name :: _ => Some name
  | x :: dir', y :: p' => if decide (x = y) then entryUnder dir' p' else None
  | _, [] => None
  end.

(** The entries of a directory, [None] when there is no such directory
    (the exception [readdirSync] throws). *)
Definition readdirSync (fs : state) (dir : list string) : option (list string) :=
  match omap (entryUnder dir) (map_to_list (files fs)).*1 with
  | [] => None
  | names => Some (remove_dups names)
  end.

End Fs.

(** ** Record shapes ([types.ts]) *)

Module Connection.

Record Rights := {
  canReply : option bool;
  canReadMessages : option bool;
  canDeleteOutgoingMessages : option bool;
  canDeleteAllMessages : option bool
}.

(** Persisted snapshot of a business connection. *)
Record StoredBusinessConnection := {
  id : string;
  userId : Z;
  userChatId : Z;
  firstName : string;
  lastName : option string;
  username : option string;
  date : Z;
  isEnabled : bool;
  rights : option Rights;
  updatedAt : Z
}.

End Connection.

Abbreviation StoredBusinessConnection := Connection.StoredBusinessConnection.

(** Versioned store for business connections; [connections] lists the
    properties of the object in enumeration order. *)
Record BusinessConnectionStore := {
  version : Z;
  connections : list (string * StoredBusinessConnection)
}.

(** What [JSON.parse] makes of [connections.json], as far as the guard of
    [loadBusinessConnections] tells documents apart: [null], on which reading
    a property throws, or any other value with what its properties [version]
    and [connections] hold ([None] for a [version] that is absent or not a
    number, and for a [connections] that is absent or falsy). *)
Inductive ParsedStore :=
| ParsedNull
| ParsedValue (pversion : option Z)
    (pconnections : option (list (string * StoredBusinessConnection))).

Inductive Direction := incoming | outgoing.

Inductive MessageEvent := new | edited | deleted.

(** A single business message record stored in JSONL. *)
Record StoredBusinessMessage := {
  messageId : Z;
  date : Z;
  storedAt : Z;
  fromId : Z;
  fromFirstName : string;
  fromLastName : option string;
  fromUsername : option string;
  text : option string;
  caption : option string;
  direction : Direction;
  replyToMessageId : option Z;
  businessConnectionId : string;
  event : MessageEvent;
  deletedMessageIds : option (list Z)
}.

(** Per-chat metadata stored alongside the message log. The properties a
    partial update can overwrite are optional here: the update's spread
    writes [undefined] into them when the partial carries it. *)
Record StoredChatMeta := {
  chatId : Z;
  firstName : option string;
  lastName : option string;
  username : option string;
  lastMessageAt : option Z;
  messageCount : Z
}.

(** The [partial] argument of [updateChatMeta]: for each property, [None]
    when the key is absent, [Some v] when the key is present with value [v]
    ([Some None]: present and [undefined]). *)
Record ChatMetaPartial := {
  p_chatId : option (option Z);
  p_firstName : option (option string);
  p_lastName : option (option string);
  p_username : option (option string);
  p_lastMessageAt : option (option Z);
  incrementCount : option bool
}.

Record LoadOptions := {
  limit : option Z;
  before : option Z;
  after : option Z
}.

Record PruneOptions := {
  maxMessages : option Z;
  maxAgeDays : option Z
}.

Record SearchOptions := {
  searchChatId : option Z;
  searchLimit : option Z
}.

(** A search result: the message with the id of its chat added. *)
Record SearchResult := {
  found : StoredBusinessMessage;
  foundIn : Z
}.

(** The properties of Telegram's updates that the handlers read. *)
Record TgUser := {
  user_id : Z;
  user_first_name : string;
  user_last_name : option string;
  user_username : option string
}.

Record TgChat := {
  chat_id : Z;
  chat_first_name : option string;
  chat_last_name : option string;
  chat_username : option string
}.

(** [reply_to_message] holds the [message_id] of the message replied to. *)
Record TgMessage := {
  message_id : Z;
  msg_date : Z;
  msg_from : option TgUser;
  msg_chat : TgChat;
  msg_text : option string;
  msg_caption : option string;
  reply_to_message : option Z;
  business_connection_id : option string
}.

Record TgDeletedMessages := {
  deleted_chat : TgChat;
  message_ids : list Z;
  deleted_connection_id : string
}.

Record TgRights := {
  can_reply : option bool;
  can_read_messages : option bool;
  can_delete_outgoing_messages : option bool;
  can_delete_all_messages : option bool
}.

Record TgBusinessConnection := {
  connection_id : string;
  connection_user : TgUser;
  user_chat_id : Z;
  connection_date : Z;
  is_enabled : bool;
  connection_rights : option TgRights
}.

(** Of the configuration, what the handlers read:
    [cfg.channels?.telegram?.business?.enabled]. *)
Record OpenClawConfig := {
  businessEnabled : option bool
}.

#[global] Instance Direction_eq_dec : EqDecision Direction.
Proof. solve_decision. Defined.

#[global] Instance MessageEvent_eq_dec : EqDecision MessageEvent.
Proof. solve_decision. Defined.

#[global] Instance StoredBusinessMessage_eq_dec : EqDecision StoredBusinessMessage.
Proof. solve_decision. Defined.

(** ** Sample data

    A toy codec for the examples: it prints the properties that tell the
    sample records apart and parses by looking the line up among them. *)

Module Sample.

Definition message (i : Z) (ev : MessageEvent) (d : Z) (t : option string)
  : StoredBusinessMessage :=
  {| messageId := i; date := d; storedAt := d * 1000; fromId := 7;
     fromFirstName := "Ann"; fromLastName := None; fromUsername := None;
     text := t; caption := None; direction := incoming;
     replyToMessageId := None; businessConnectionId := "bc";
     event := ev; deletedMessageIds := None |}.

Definition captioned (i : Z) (d : Z) (c : string) : StoredBusinessMessage :=
  {| messageId := i; date := d; storedAt := d * 1000; fromId := 7;
     fromFirstName := "Ann"; fromLastName := None; fromUsername := None;
     text := None; caption := Some c; direction := outgoing;
     replyToMessageId := None; businessConnectionId := "bc";
     event := new; deletedMessageIds := None |}.

(** The record [appendDeletionMarker] builds for [ids] on connection "bc"
    at clock reading [now]. *)
Definition marker (ids : list Z) (now : Z) : StoredBusinessMessage :=
  {| messageId := 0; date := now `div` 1000; storedAt := now; fromId := 0;
     fromFirstName := ""; fromLastName := None; fromUsername := None;
     text := None; caption := None; direction := incoming;
     replyToMessageId := None; businessConnectionId := "bc";
     event := deleted; deletedMessageIds := Some ids |}.

(** Messages 1 to [n], one second apart. *)
Definition run (n : nat) : list StoredBusinessMessage :=
  (λ i, message (Z.of_nat i) new (1000 + Z.of_nat i) None) <$> seq 1 n.

Definition universe : list StoredBusinessMessage :=
  [ message 1 new 100 None;
    message 1 edited 101 (Some "v2");
    message 2 new 102 (Some "Hello ABC");
    captioned 3 103 "abcd";
    message 4 new 104 (Some "xyz");
    marker [1] 200000;
    marker [2] 300000 ] ++ run 51.

Definition eventTag (ev : MessageEvent) : string :=
  match ev with new => "new" | edited => "edited" | deleted => "deleted" end.

Definition stringify (m : StoredBusinessMessage) : string :=
  "{" +:+ pretty (messageId m) +:+ "," +:+ eventTag (event m) +:+ ","
  +:+ pretty (date m) +:+ "," +:+ default "" (text m) +:+ ","
  +:+ default "" (caption m) +:+ ","
  +:+ Js.join " " (pretty <$> default [] (deletedMessageIds m)) +:+ "}".

Definition parse (s : string) : option StoredBusinessMessage :=
  head (filter (λ m, stringify m = s) universe).

Definition meta (count : Z) (last : option string) : StoredChatMeta :=
  {| chatId := 42; firstName := Some "Ann"; lastName := last;
     username := None; lastMessageAt := Some 5000; messageCount := count |}.

Definition stringifyMeta (m : StoredChatMeta) : string :=
  "{" +:+ pretty (chatId m) +:+ "," +:+ default "" (firstName m) +:+ ","
  +:+ default "-" (lastName m) +:+ "," +:+ pretty (messageCount m) +:+ "}".

Definition parseMeta (s : string) : option StoredChatMeta :=
  head (filter (λ m, stringifyMeta m = s)
          [meta 0 None; meta 1 None; meta 2 None; meta 3 None;
           meta 2 (Some "Lee"); meta 3 (Some "Lee")]).

Definition connection (i : string) (enabled : bool) (upd : Z)
  : StoredBusinessConnection :=
  {| Connection.id := i; Connection.userId := 1; Connection.userChatId := 1;
     Connection.firstName := "Op"; Connection.lastName := None;
     Connection.username := None; Connection.date := 1;
     Connection.isEnabled := enabled; Connection.rights := None;
     Connection.updatedAt := upd |}.

(** Parses three documents: a store of three connections, a store of
    another version, and [null]. *)
Definition parseStore (s : string) : option ParsedStore :=
  if decide (s = "three") then
    Some (ParsedValue (Some 1)
            (Some [("a", connection "a" true 100);
                   ("b", connection "b" true 200);
                   ("c", connection "c" false 300)]))
  else if decide (s = "v2") then Some (ParsedValue (Some 2) (Some []))
  else if decide (s = "null") then Some ParsedNull
  else None.

Definition number (s : string) : option Z :=
  if decide (s = "42") then Some 42
  else if decide (s = "43") then Some 43 else None.

Definition base : list string := ["state"; "telegram-business"; "default"].

Definition emptyFs : Fs.state := Fs.State ∅ [].

(** A second toy codec for metadata, with the time of the last message,
    and one for stores; both parse by looking the text up among the
    documents they are given. *)
Definition showMeta (m : StoredChatMeta) : string :=
  "{" +:+ pretty (chatId m) +:+ "," +:+ default "" (firstName m) +:+ ","
  +:+ default "-" (lastName m) +:+ "," +:+ default "-" (username m) +:+ ","
  +:+ pretty (default 0 (lastMessageAt m)) +:+ ","
  +:+ pretty (messageCount m) +:+ "}".

Definition readMeta (known : list StoredChatMeta) (s : string)
  : option StoredChatMeta :=
  head (filter (λ m, showMeta m = s) known).

Definition chatMeta (chat : Z) (last : option string) (at_ count : Z)
  : StoredChatMeta :=
  {| chatId := chat; firstName := Some "Ann"; lastName := last;
     username := None; lastMessageAt := Some at_; messageCount := count |}.

Definition showStore (s : BusinessConnectionStore) : string :=
  pretty (version s) +:+ ":"
  +:+ Js.join ","
        ((λ kv, kv.1 +:+ (if Connection.isEnabled kv.2 then "+" else "-")
                +:+ pretty (Connection.updatedAt kv.2))
           <$> connections s).

Definition readStore (known : list BusinessConnectionStore) (s : string)
  : option ParsedStore :=
  (λ st, ParsedValue (Some (version st)) (Some (connections st)))
    <$> head (filter (λ st, showStore st = s) known).

Definition ann : TgUser :=
  {| user_id := 7; user_first_name := "Ann"; user_last_name := None;
     user_username := None |}.

Definition annChat (chat : Z) : TgChat :=
  {| chat_id := chat; chat_first_name := Some "Ann"; chat_last_name := None;
     chat_username := None |}.

(** The update that is stored as [captioned 3 103 "abcd"] in chat 42. *)
Definition photo : TgMessage :=
  {| message_id := 3; msg_date := 103; msg_from := Some ann;
     msg_chat := annChat 42; msg_text := None; msg_caption := Some "abcd";
     reply_to_message := None; business_connection_id := Some "bc" |}.

Definition operator (enabled : bool) : TgBusinessConnection :=
  {| connection_id := "a";
     connection_user :=
       {| user_id := 1; user_first_name := "Op"; user_last_name := None;
          user_username := None |};
     user_chat_id := 1; connection_date := 1; is_enabled := enabled;
     connection_rights := None |}.

Definition businessOn : OpenClawConfig := {| businessEnabled := Some true |}.

End Sample.

(** ** The store *)

Section Store.

Set Default Proof Using "Type".

(** [JSON.parse] at each type it is cast to ([None]: it throws) and
    [JSON.stringify]; [Number] followed by [Number.isFinite] ([None]: the
    entry is not a finite number). *)
Variable JSON_parse_message : string → option StoredBusinessMessage.
Variable JSON_stringify_message : StoredBusinessMessage → string.
Variable JSON_parse_meta : string → option StoredChatMeta.
Variable JSON_stringify_meta : StoredChatMeta → string.
Variable JSON_parse_store : string → option ParsedStore.
Variable Number : string → option Z.
Variable JSON_stringify_store : BusinessConnectionStore → string.

(** *** [connection-store.ts] *)

Definition CONNECTIONS_FILE : string := "connections.json".

Definition connectionsPath (baseDir : list string) : list string :=
  Fs.join baseDir [CONNECTIONS_FILE].

Definition emptyStore : BusinessConnectionStore :=
  {| version := 1; connections := [] |}.

Definition loadBusinessConnections (fs : Fs.state) (baseDir : list string)
  : BusinessConnectionStore :=
  let filePath := connectionsPath baseDir in
  match Fs.readFileSync fs filePath with
  | None => emptyStore
  | Some raw =>
      match JSON_parse_store raw with
      | None => emptyStore
      | Some ParsedNull => emptyStore
      | Some (ParsedValue pversion pconnections) =>
          if decide (pversion = Some 1) then
            match pconnections with
            | Some conns => {| version := 1; connections := conns |}
            | None => emptyStore
            end
          else emptyStore
      end
  end.

(** One turn of the loop of [getActiveBusinessConnectionId]. *)
Definition activeStep (best : option StoredBusinessConnection)
  (conn : StoredBusinessConnection) : option StoredBusinessConnection :=
  if negb (Connection.isEnabled conn) then best
  else match best with
       | None => Some conn
       | Some b =>
           if Connection.updatedAt conn >? Connection.updatedAt b
           then Some conn else best
       end.

(** Returns the most recently updated active (enabled) connection ID, or
    undefined. *)
Definition getActiveBusinessConnectionId (fs : Fs.state) (baseDir : list string)
  : option string :=
  let store := loadBusinessConnections fs baseDir in
  let best := fold_left activeStep (connections store).*2 None in
  Connection.id <$> best.

(** *** [message-store.ts] *)

Definition MESSAGES_FILE : string := "messages.jsonl".
Definition META_FILE : string := "meta.json".
Definition CHATS_DIR : string := "chats".

Definition chatDir (baseDir : list string) (chatId : Z) : list string :=
  Fs.join baseDir [CHATS_DIR; pretty chatId].

Definition ensureDir (fs : Fs.state) (dir : list string) : Fs.state :=
  Fs.mkdirSync fs dir.

Definition newline : string := String Js.LF EmptyString.

Definition appendBusinessMessage (fs : Fs.state) (baseDir : list string)
  (chatId : Z) (msg : StoredBusinessMessage) : Fs.state :=
  let dir := chatDir baseDir chatId in
  let fs := ensureDir fs dir in
  let filePath := Fs.join dir [MESSAGES_FILE] in
  Fs.appendFileSync fs filePath (JSON_stringify_message msg +:+ newline).

(** The synthetic record of [appendDeletionMarker]; [now] is the reading of
    the clock in milliseconds. *)
Definition deletionMarker (messageIds : list Z) (businessConnectionId : string)
  (now : Z) : StoredBusinessMessage :=
  {| messageId := 0;
     date := now `div` 1000;
     storedAt := now;
     fromId := 0;
     fromFirstName := "";
     fromLastName := None;
     fromUsername := None;
     text := None;
     caption := None;
     direction := incoming;
     replyToMessageId := None;
     businessConnectionId := businessConnectionId;
     event := deleted;
     deletedMessageIds := Some messageIds |}.

Definition appendDeletionMarker (fs : Fs.state) (baseDir : list string)
  (chatId : Z) (messageIds : list Z) (businessConnectionId : string) (now : Z)
  : Fs.state :=
  let marker := deletionMarker messageIds businessConnectionId now in
  appendBusinessMessage fs baseDir chatId marker.

(** The lines of a log that are not blank, parsed; a line that does not
    parse is skipped. *)
Definition parseLines (lines : list string) : list StoredBusinessMessage :=
  omap JSON_parse_message (filter (λ l, Js.truthy (Js.trim l)) lines).

Definition readJsonl (fs : Fs.state) (filePath : list string)
  : list StoredBusinessMessage :=
  match Fs.readFileSync fs filePath with
  | None => []
  | Some raw => parseLines (Js.split Js.LF raw)
  end.

(** The ids named by the deletion markers of [records]. *)
Definition collectDeleted (records : list StoredBusinessMessage) : gset Z :=
  fold_left
    (λ deletedIds r,
       match event r, deletedMessageIds r with
       | deleted, Some ids => fold_left (λ s i, {[i]} ∪ s) ids deletedIds
       | _, _ => deletedIds
       end)
    records ∅.

(** The latest version of each id that is not deleted, in a [Map]. *)
Definition collectById (deletedIds : gset Z) (records : list StoredBusinessMessage)
  : list (Z * StoredBusinessMessage) :=
  fold_left
    (λ byId r,
       if decide (event r = deleted) then byId
       else if decide (messageId r ∈ deletedIds) then byId
       else Js.mapSet (messageId r) r byId)
    records [].

(** [a.date - b.date || a.messageId - b.messageId]. *)
Definition byDateThenId (a b : StoredBusinessMessage) : Z :=
  let d := date a - date b in
  if decide (d = 0) then messageId a - messageId b else d.

(** Deduplicate and filter messages: for edits, keep only the latest
    version per messageId; remove messages that have been marked as
    deleted. *)
Definition deduplicateMessages (records : list StoredBusinessMessage)
  : list StoredBusinessMessage :=
  let deletedIds := collectDeleted records in
  let byId := collectById deletedIds records in
  Js.toSorted byDateThenId (Js.mapValues byId).

Definition loadChatMessages (fs : Fs.state) (baseDir : list string) (chatId : Z)
  (opts : option LoadOptions) : list StoredBusinessMessage :=
  let filePath := Fs.join (chatDir baseDir chatId) [MESSAGES_FILE] in
  let raw := readJsonl fs filePath in
  let messages := deduplicateMessages raw in
  let messages :=
    match opts ≫= after with
    | Some a => filter (λ m, messageId m > a) messages
    | None => messages
    end in
  let messages :=
    match opts ≫= before with
    | Some b => filter (λ m, messageId m < b) messages
    | None => messages
    end in
  let limit := default 50 (opts ≫= limit) in
  if decide (limit > 0 ∧ Z.of_nat (length messages) > limit)
  then Js.slice (- limit) messages
  else messages.

(** The stored metadata that [updateChatMeta] starts from: the parsed
    [meta.json], or the record of a new chat when there is none or it does
    not parse. *)
Definition existingChatMeta (fs : Fs.state) (baseDir : list string) (chatId : Z)
  : StoredChatMeta :=
  let filePath := Fs.join (chatDir baseDir chatId) [META_FILE] in
  let existing :=
    {| chatId := chatId; firstName := Some EmptyString; lastName := None;
       username := None; lastMessageAt := Some 0; messageCount := 0 |} in
  match Fs.readFileSync fs filePath with
  | None => existing
  | Some raw => default existing (JSON_parse_meta raw)
  end.

(** [{...existing, ...rest}] at one property. *)
Definition spread {A} (existing : A) (rest : option A) : A :=
  match rest with Some v => v | None => existing end.

(** The object [updated] that [updateChatMeta] builds:
    [{...existing, ...rest, chatId, messageCount: ...}]; a [chatId] in the
    partial is overwritten. *)
Definition updatedChatMeta (existing : StoredChatMeta) (chatId : Z)
  (partial : ChatMetaPartial) : StoredChatMeta :=
  {| chatId := chatId;
     firstName := spread (firstName existing) (p_firstName partial);
     lastName := spread (lastName existing) (p_lastName partial);
     username := spread (username existing) (p_username partial);
     lastMessageAt := spread (lastMessageAt existing) (p_lastMessageAt partial);
     messageCount :=
       if default false (incrementCount partial)
       then messageCount existing + 1 else messageCount existing |}.

Definition updateChatMeta (fs : Fs.state) (baseDir : list string) (chatId : Z)
  (partial : ChatMetaPartial) : Fs.state :=
  let dir := chatDir baseDir chatId in
  let fs := ensureDir fs dir in
  let filePath := Fs.join dir [META_FILE] in
  let existing := existingChatMeta fs baseDir chatId in
  let updated := updatedChatMeta existing chatId partial in
  Fs.writeFileSync fs filePath (JSON_stringify_meta updated).

(** [meta.messageCount = n]. *)
Definition setMessageCount (meta : StoredChatMeta) (n : Z) : StoredChatMeta :=
  {| chatId := chatId meta; firstName := firstName meta;
     lastName := lastName meta; username := username meta;
     lastMessageAt := lastMessageAt meta; messageCount := n |}.

(** The end of [maybePruneChatMessages]: sync meta message count to match
    retained messages; nothing happens when the meta file is missing or
    does not parse. *)
Definition syncMessageCount (fs : Fs.state) (baseDir : list string) (chatId : Z)
  (count : Z) : Fs.state :=
  let metaPath := Fs.join (chatDir baseDir chatId) [META_FILE] in
  match Fs.readFileSync fs metaPath with
  | None => fs
  | Some metaRaw =>
      match JSON_parse_meta metaRaw with
      | None => fs
      | Some meta =>
          let meta := setMessageCount meta count in
          Fs.writeFileSync fs metaPath (JSON_stringify_meta meta)
      end
  end.

(** Compact the JSONL file for a chat, enforcing [maxMessages] and
    [maxAgeDays]. Only rewrites the file when records are actually
    removed. [now] is the reading of the clock in milliseconds. *)
Definition maybePruneChatMessages (fs : Fs.state) (baseDir : list string)
  (chatId : Z) (opts : PruneOptions) (now : Z) : Fs.state :=
  let maxMessages := default 0 (maxMessages opts) in
  let maxAgeDays := default 0 (maxAgeDays opts) in
  if decide (maxMessages <= 0 ∧ maxAgeDays <= 0) then fs else
  let filePath := Fs.join (chatDir baseDir chatId) [MESSAGES_FILE] in
  let raw := readJsonl fs filePath in
  if decide (length raw = 0%nat) then fs else
  if decide (maxMessages > 0 ∧ Z.of_nat (length raw) <= maxMessages ∧ maxAgeDays <= 0)
  then fs else
  let messages := deduplicateMessages raw in
  let messages :=
    if decide (maxAgeDays > 0) then
      let cutoffSec := now `div` 1000 - maxAgeDays * 86400 in
      filter (λ m, date m >= cutoffSec) messages
    else messages in
  let messages :=
    if decide (maxMessages > 0 ∧ Z.of_nat (length messages) > maxMessages)
    then Js.slice (- maxMessages) messages
    else messages in
  if decide (length raw ≤ length messages)%nat then fs else
  let fs :=
    Fs.writeFileSync fs filePath
      (Js.join newline (JSON_stringify_message <$> messages) +:+ newline) in
  syncMessageCount fs baseDir chatId (Z.of_nat (length messages)).

(** [(m.text ?? m.caption ?? "")]. *)
Definition searchText (m : StoredBusinessMessage) : string :=
  match text m with
  | Some t => t
  | None => default EmptyString (caption m)
  end.

(** The inner loop of [searchBusinessMessages] over the messages of one
    chat; it stops when [results] has reached [limit]. *)
Fixpoint searchMessages (lowerQuery : string) (limit : Z) (cid : Z)
  (results : list SearchResult) (messages : list StoredBusinessMessage)
  : list SearchResult :=
  match messages with
  | [] => results
  | m :: rest =>
      if decide (Z.of_nat (length results) >= limit) then results
      else
        let text := Js.toLowerCase (searchText m) in
        let results :=
          if Js.includes text lowerQuery
          then results ++ [{| found := m; foundIn := cid |}]
          else results in
        searchMessages lowerQuery limit cid results rest
  end.

(** The outer loop over the chats. *)
Fixpoint searchChats (fs : Fs.state) (baseDir : list string)
  (lowerQuery : string) (limit : Z) (results : list SearchResult)
  (chatIds : list Z) : list SearchResult :=
  match chatIds with
  | [] => results
  | cid :: rest =>
      if decide (Z.of_nat (length results) >= limit) then results
      else
        let filePath := Fs.join (chatDir baseDir cid) [MESSAGES_FILE] in
        let messages := deduplicateMessages (readJsonl fs filePath) in
        let results := searchMessages lowerQuery limit cid results messages in
        searchChats fs baseDir lowerQuery limit results rest
  end.

(** The chats a search goes through, in order: the one asked for, or the
    entries of the chats directory that are numbers; [None] when the
    directory cannot be listed. *)
Definition searchChatIds (fs : Fs.state) (baseDir : list string)
  (opts : option SearchOptions) : option (list Z) :=
  match opts ≫= searchChatId with
  | Some cid => Some [cid]
  | None =>
      let chatsPath := Fs.join baseDir [CHATS_DIR] in
      match Fs.readdirSync fs chatsPath with
      | Some entries => Some (omap Number entries)
      | None => None
      end
  end.

Definition searchBusinessMessages (fs : Fs.state) (baseDir : list string)
  (query : string) (opts : option SearchOptions) : list SearchResult :=
  let lowerQuery := Js.toLowerCase query in
  let limit := default 20 (opts ≫= searchLimit) in
  match searchChatIds fs baseDir opts with
  | None => []
  | Some chatIds => searchChats fs baseDir lowerQuery limit [] chatIds
  end.

(** *** [connection-store.ts], the write side *)

Definition saveBusinessConnection (fs : Fs.state) (baseDir : list string)
  (conn : StoredBusinessConnection) : Fs.state :=
  let fs := ensureDir fs baseDir in
  let store := loadBusinessConnections fs baseDir in
  let store :=
    {| version := version store;
       connections := Js.objectSet (Connection.id conn) conn (connections store) |} in
  let filePath := connectionsPath baseDir in
  Fs.writeFileSync fs filePath (JSON_stringify_store store).

(** *** [message-store.ts], the chat listing *)

(** [b.lastMessageAt - a.lastMessageAt]; the difference is [NaN] when one
    of them is [undefined], which a sort takes for 0. *)
Definition byLastMessageAtDesc (a b : StoredChatMeta) : Z :=
  match lastMessageAt b, lastMessageAt a with
  | Some x, Some y => x - y
  | _, _ => 0
  end.

(** The metadata of one entry of the chats directory, [None] when the file
    is missing or does not parse. *)
Definition entryMeta (fs : Fs.state) (chatsPath : list string) (entry : string)
  : option StoredChatMeta :=
  let metaPath := Fs.join chatsPath [entry; META_FILE] in
  match Fs.readFileSync fs metaPath with
  | Some raw => JSON_parse_meta raw
  | None => None
  end.

Definition listBusinessChats (fs : Fs.state) (baseDir : list string)
  : list StoredChatMeta :=
  let chatsPath := Fs.join baseDir [CHATS_DIR] in
  match Fs.readdirSync fs chatsPath with
  | None => []
  | Some entries =>
      let metas := omap (entryMeta fs chatsPath) entries in
      Js.toSorted byLastMessageAtDesc metas
  end.

(** *** [handlers.ts] *)

Definition resolveBusinessEnabled (cfg : OpenClawConfig) : bool :=
  bool_decide (businessEnabled cfg = Some true).

(** Determine message direction by comparing [from.id] with [chat.id]. *)
Definition resolveDirection (msg : TgMessage) : Direction :=
  match msg_from msg with
  | Some sender =>
      if decide (user_id sender ≠ chat_id (msg_chat msg)) then outgoing
      else incoming
  | None => incoming
  end.

(** [now] is the reading of the clock in milliseconds. *)
Definition extractStoredMessage (msg : TgMessage) (businessConnectionId : string)
  (event : MessageEvent) (now : Z) : StoredBusinessMessage :=
  {| messageId := message_id msg;
     date := msg_date msg;
     storedAt := now;
     fromId := default 0 (user_id <$> msg_from msg);
     fromFirstName := default EmptyString (user_first_name <$> msg_from msg);
     fromLastName := msg_from msg ≫= user_last_name;
     fromUsername := msg_from msg ≫= user_username;
     text := msg_text msg;
     caption := msg_caption msg;
     direction := resolveDirection msg;
     replyToMessageId := reply_to_message msg;
     businessConnectionId := businessConnectionId;
     event := event;
     deletedMessageIds := None |}.

(** The record the [business_connection] handler stores. *)
Definition storedConnection (conn : TgBusinessConnection) (now : Z)
  : StoredBusinessConnection :=
  {| Connection.id := connection_id conn;
     Connection.userId := user_id (connection_user conn);
     Connection.userChatId := user_chat_id conn;
     Connection.firstName := user_first_name (connection_user conn);
     Connection.lastName := user_last_name (connection_user conn);
     Connection.username := user_username (connection_user conn);
     Connection.date := connection_date conn;
     Connection.isEnabled := is_enabled conn;
     Connection.rights :=
       (λ r, {| Connection.canReply := Some (default false (can_reply r));
                Connection.canReadMessages :=
                  Some (default false (can_read_messages r));
                Connection.canDeleteOutgoingMessages :=
                  Some (default false (can_delete_outgoing_messages r));
                Connection.canDeleteAllMessages :=
                  Some (default false (can_delete_all_messages r)) |})
       <$> connection_rights conn;
     Connection.updatedAt := now |}.

(** The handler of [business_connection]: the operator connects or
    disconnects the bot. It does not look at the configuration. *)
Definition onBusinessConnection (fs : Fs.state) (baseDir : list string)
  (conn : option TgBusinessConnection) (now : Z) : Fs.state :=
  match conn with
  | None => fs
  | Some conn => saveBusinessConnection fs baseDir (storedConnection conn now)
  end.

(** The handler of [business_message]; [now] and [later] are the two
    readings of the clock, for the record and for the metadata. *)
Definition onBusinessMessage (cfg : OpenClawConfig) (fs : Fs.state)
  (baseDir : list string) (msg : option TgMessage) (now later : Z) : Fs.state :=
  if negb (resolveBusinessEnabled cfg) then fs else
  match msg with
  | None => fs
  | Some msg =>
      match business_connection_id msg with
      | None => fs
      | Some businessConnectionId =>
          if negb (Js.truthy businessConnectionId) then fs else
          let chatId := chat_id (msg_chat msg) in
          let stored := extractStoredMessage msg businessConnectionId new now in
          let fs := appendBusinessMessage fs baseDir chatId stored in
          updateChatMeta fs baseDir chatId
            {| p_chatId := None;
               p_firstName :=
                 Some (Some (default EmptyString (chat_first_name (msg_chat msg))));
               p_lastName := Some (chat_last_name (msg_chat msg));
               p_username := Some (chat_username (msg_chat msg));
               p_lastMessageAt := Some (Some later);
               incrementCount := Some true |}
      end
  end.

(** The handler of [edited_business_message]. *)
Definition onEditedBusinessMessage (cfg : OpenClawConfig) (fs : Fs.state)
  (baseDir : list string) (msg : option TgMessage) (now : Z) : Fs.state :=
  if negb (resolveBusinessEnabled cfg) then fs else
  match msg with
  | None => fs
  | Some msg =>
      match business_connection_id msg with
      | None => fs
      | Some businessConnectionId =>
          if negb (Js.truthy businessConnectionId) then fs else
          let chatId := chat_id (msg_chat msg) in
          let stored := extractStoredMessage msg businessConnectionId edited now in
          appendBusinessMessage fs baseDir chatId stored
      end
  end.

(** The handler of [deleted_business_messages]. *)
Definition onDeletedBusinessMessages (cfg : OpenClawConfig) (fs : Fs.state)
  (baseDir : list string) (update : option TgDeletedMessages) (now : Z)
  : Fs.state :=
  if negb (resolveBusinessEnabled cfg) then fs else
  match update with
  | None => fs
  | Some removed =>
      let chatId := chat_id (deleted_chat removed) in
      appendDeletionMarker fs baseDir chatId (message_ids removed)
        (deleted_connection_id removed) now
  end.

(** The messages a prune retains: the canonical view, without the messages
    older than the age limit, cut to its last [maxMessages]. *)
Definition retained (raw : list StoredBusinessMessage) (opts : PruneOptions)
  (now : Z) : list StoredBusinessMessage :=
  let maxMessages := default 0 (maxMessages opts) in
  let maxAgeDays := default 0 (maxAgeDays opts) in
  let messages := deduplicateMessages raw in
  let messages :=
    if decide (maxAgeDays > 0) then
      let cutoffSec := now `div` 1000 - maxAgeDays * 86400 in
      filter (λ m, date m >= cutoffSec) messages
    else messages in
  if decide (maxMessages > 0 ∧ Z.of_nat (length messages) > maxMessages)
  then Js.slice (- maxMessages) messages
  else messages.

(** *** Vocabulary of the statements *)

(** The deletion marker [d] names the id [i]. *)
Definition names (d : StoredBusinessMessage) (i : Z) : Prop :=
  event d = deleted ∧ ∃ ids, deletedMessageIds d = Some ids ∧ i ∈ ids.

(** [m] survives serialisation: its line parses back to it, holds no line
    feed and is not blank. *)
Definition lineOk (m : StoredBusinessMessage) : Prop :=
  JSON_parse_message (JSON_stringify_message m) = Some m
  ∧ Js.split Js.LF (JSON_stringify_message m) = [JSON_stringify_message m]
  ∧ Js.truthy (Js.trim (JSON_stringify_message m)) = true.

(** The text is empty or ends with a line feed. *)
Fixpoint terminated (raw : string) : bool :=
  match raw with
  | EmptyString => true
  | String c EmptyString => bool_decide (c = Js.LF)
  | String _ rest => terminated rest
  end.

(** The log at [p] is absent or made of whole lines. *)
Definition logOk (fs : Fs.state) (p : list string) : Prop :=
  from_option terminated true (Fs.readFileSync fs p) = true.

(** The log of a chat. *)
Definition logPath (baseDir : list string) (chatId : Z) : list string :=
  Fs.join (chatDir baseDir chatId) [MESSAGES_FILE].

Definition metaPath (baseDir : list string) (chatId : Z) : list string :=
  Fs.join (chatDir baseDir chatId) [META_FILE].

(** The canonical view of a chat. *)
Definition canonical (fs : Fs.state) (baseDir : list string) (chatId : Z)
  : list StoredBusinessMessage :=
  deduplicateMessages (readJsonl fs (logPath baseDir chatId)).

(** Appending a sequence of records, one call each. *)
Definition appendAll (fs : Fs.state) (baseDir : list string) (chatId : Z)
  (records : list StoredBusinessMessage) : Fs.state :=
  fold_left (λ fs m, appendBusinessMessage fs baseDir chatId m) records fs.

(** [m] lies above the cursor [a] and below the cursor [b], where set. *)
Definition withinBounds (a b : option Z) (m : StoredBusinessMessage) : Prop :=
  from_option (λ a, messageId m > a) True a
  ∧ from_option (λ b, messageId m < b) True b.

#[global] Instance withinBounds_dec a b m : Decision (withinBounds a b m).
Proof. unfold withinBounds. destruct a, b; simpl; apply _. Defined.


(** The matches of one chat, in canonical order, with the chat's id. *)
Definition chatMatches (fs : Fs.state) (baseDir : list string) (query : string)
  (cid : Z) : list SearchResult :=
  (λ m, {| found := m; foundIn := cid |}) <$>
    filter (λ m, Js.includes (Js.toLowerCase (searchText m))
                   (Js.toLowerCase query) = true)
      (canonical fs baseDir cid).

(** Ascending order on (date, messageId). *)
Definition dateIdLe (a b : StoredBusinessMessage) : Prop :=
  date a < date b ∨ (date a = date b ∧ messageId a <= messageId b).

(** Drops the parameters of the section that the goal does not mention,
    so that automation leaves them out of the proof. *)
Ltac forget_codec :=
  repeat match goal with
         | f : string → option _ |- _ => clear f
         | f : _ → string |- _ => clear f
         end.

(** ** Lines and strings *)

Lemma string_app_cons c (a b : string) : String c a +:+ b = String c (a +:+ b).
Proof. reflexivity. Qed.

Lemma string_app_nil_l (a : string) : EmptyString +:+ a = a.
Proof. reflexivity. Qed.

Lemma string_app_assoc (a b c : string) : (a +:+ b) +:+ c = a +:+ b +:+ c.
Proof.
  induction a as [|x a IH]; [done|].
  by rewrite !string_app_cons, IH.
Qed.

Lemma split_not_nil sep s : Js.split sep s ≠ [].
Proof.
  destruct s as [|c s]; simpl; [done|].
  destruct (decide (c = sep)); [done|].
  by destruct (Js.split sep s).
Qed.

(** Splitting distributes over a separator. *)
Lemma split_app sep s t :
  Js.split sep (s +:+ String sep t) = Js.split sep s ++ Js.split sep t.
Proof.
  induction s as [|c s IH].
  - rewrite string_app_nil_l. simpl. by rewrite decide_True.
  - rewrite string_app_cons. simpl. destruct (decide (c = sep)) as [->|Hc].
    + by rewrite IH.
    + rewrite IH. pose proof (split_not_nil sep s) as Hne.
      by destruct (Js.split sep s).
Qed.



Lemma slice_last {A} (n : Z) (l : list A) :
  0 < n →
  Js.slice (- n) l = drop (length l - Z.to_nat n) l.
Proof.
  intros Hn. unfold Js.slice.
  replace (- n <? 0) with true by (symmetry; apply Z.ltb_lt; lia).
  f_equal. lia.
Qed.

(** ** Sorting *)

Lemma insertSorted_perm {A} (cmp : A → A → Z) x l :
  Js.insertSorted cmp x l ≡ₚ x :: l.
Proof.
  induction l as [|y l IH]; simpl; [done|].
  destruct (cmp x y <=? 0); [done|].
  rewrite IH. apply Permutation_swap.
Qed.

Lemma toSorted_perm {A} (cmp : A → A → Z) l : Js.toSorted cmp l ≡ₚ l.
Proof.
  induction l as [|x l IH]; simpl; [done|].
  by rewrite insertSorted_perm, IH.
Qed.

Section sorted.
Context {A : Type} (cmp : A → A → Z).
Hypothesis cmp_total : ∀ a b, cmp a b <= 0 ∨ cmp b a <= 0.
Hypothesis cmp_trans : ∀ a b c, cmp a b <= 0 → cmp b c <= 0 → cmp a c <= 0.

Lemma insertSorted_sorted x l :
  StronglySorted (λ a b, cmp a b <= 0) l →
  StronglySorted (λ a b, cmp a b <= 0) (Js.insertSorted cmp x l).
Proof using cmp_total cmp_trans.
  induction 1 as [|y l Hl IH Hy]; simpl.
  - repeat constructor.
  - destruct (Z.leb_spec (cmp x y) 0) as [Hxy|Hxy].
    + constructor; [by constructor|].
      constructor; [done|].
      eapply Forall_impl; [exact Hy|]. intros z Hz. by eapply cmp_trans.
    + constructor; [done|].
      rewrite insertSorted_perm. constructor; [|done].
      destruct (cmp_total x y); [lia|done].
Qed.

Lemma toSorted_sorted l :
  StronglySorted (λ a b, cmp a b <= 0) (Js.toSorted cmp l).
Proof using cmp_total cmp_trans.
  induction l as [|x l IH]; simpl; [constructor|].
  by apply insertSorted_sorted.
Qed.

End sorted.

Lemma byDateThenId_le a b : byDateThenId a b <= 0 ↔ dateIdLe a b.
Proof.
  unfold byDateThenId, dateIdLe. case_decide; lia.
Qed.

(** ** The [Map] *)

Lemma mapGet_mapSet {A} k k' (v : A) m :
  Js.mapGet k' (Js.mapSet k v m) =
  if decide (k' = k) then Some v else Js.mapGet k' m.
Proof.
  induction m as [|[k0 v0] m IH]; simpl.
  - done.
  - destruct (decide (k = k0)) as [->|Hk]; simpl.
    + by destruct (decide (k' = k0)).
    + rewrite IH.
      destruct (decide (k' = k0)) as [->|]; [|done].
      by rewrite decide_False.
Qed.

Lemma mapSet_keys {A} k (v : A) m :
  (Js.mapSet k v m).*1 = if decide (k ∈ m.*1) then m.*1 else m.*1 ++ [k].
Proof.
  induction m as [|[k0 v0] m IH].
  - done.
  - cbn [Js.mapSet]. destruct (decide (k = k0)) as [->|Hk].
    + rewrite !fmap_cons. cbn [fst]. clear IH.
      destruct (decide (k0 ∈ k0 :: m.*1)) as [H|H]; [done|].
      destruct H. by left.
    + rewrite !fmap_cons. cbn [fst]. rewrite IH.
      destruct (decide (k ∈ m.*1)) as [Hin|Hin];
        destruct (decide (k ∈ k0 :: m.*1)) as [H|H]; try done.
      * destruct H. by right.
      * apply elem_of_cons in H as [?|?]; done.
Qed.

Lemma mapSet_NoDup {A} k (v : A) m :
  NoDup m.*1 → NoDup (Js.mapSet k v m).*1.
Proof.
  intros Hnd. rewrite mapSet_keys. case_decide; [done|].
  apply NoDup_app. split_and!; [done| |apply NoDup_singleton].
  intros x Hx ->%list_elem_of_singleton. done.
Qed.

Lemma mapGet_elem_of {A} k (v : A) m :
  NoDup m.*1 → (k, v) ∈ m ↔ Js.mapGet k m = Some v.
Proof.
  induction m as [|[k0 v0] m IH]; simpl; intros Hnd.
  - split; [by intros ?%elem_of_nil|done].
  - apply NoDup_cons in Hnd as [Hk0 Hnd].
    destruct (decide (k = k0)) as [->|Hk].
    + split.
      * intros [Heq|Hin]%elem_of_cons; [congruence|].
        destruct Hk0. apply list_elem_of_fmap. by exists (k0, v).
      * intros [= ->]. by left.
    + rewrite <- IH by done. split.
      * intros [Heq|Hin]%elem_of_cons; [congruence|done].
      * by right.
Qed.

Lemma last_filter_Some {A} (P : A → Prop) `{!∀ x, Decision (P x)} l v :
  last (filter P l) = Some v ↔
  ∃ l1 l2, l = l1 ++ v :: l2 ∧ P v ∧ Forall (λ r, ¬ P r) l2.
Proof.
  induction l as [|r l IH] using rev_ind.
  - split; [done|]. intros (l1 & l2 & Heq & _). by destruct l1.
  - rewrite filter_app. simpl. rewrite filter_cons, filter_nil.
    destruct (decide (P r)) as [Hr|Hr].
    + rewrite last_snoc. split.
      * intros [= ->]. exists l, []. by split_and!.
      * intros (l1 & l2 & Heq & Hv & Hl2).
        destruct l2 as [|x l2 _] using rev_ind.
        -- apply app_inj_tail in Heq as [_ ->]. done.
        -- rewrite app_comm_cons, app_assoc in Heq.
           apply app_inj_tail in Heq as [_ ->].
           apply Forall_app in Hl2 as [_ Hx].
           apply Forall_inv in Hx. by destruct Hx.
    + rewrite app_nil_r, IH. split.
      * intros (l1 & l2 & -> & Hv & Hl2). exists l1, (l2 ++ [r]).
        split_and!; [by rewrite <- app_assoc, <- app_comm_cons|done|].
        apply Forall_app. split; [done|by apply Forall_singleton].
      * intros (l1 & l2 & Heq & Hv & Hl2).
        destruct l2 as [|x l2 _] using rev_ind.
        -- apply app_inj_tail in Heq as [_ ->]. done.
        -- rewrite app_comm_cons, app_assoc in Heq.
           apply app_inj_tail in Heq as [-> ->].
           apply Forall_app in Hl2 as [Hl2 _]. by exists l1, l2.
Qed.

(** ** The canonical view *)

Lemma collectDeleted_inner (ids : list Z) (s : gset Z) x :
  x ∈ fold_left (λ s i, {[i]} ∪ s) ids s ↔ x ∈ ids ∨ x ∈ s.
Proof.
  revert s. induction ids as [|i ids IH]; intros s; simpl.
  - split; [by right|]. by intros [?%elem_of_nil|?].
  - rewrite IH, elem_of_cons, elem_of_union, elem_of_singleton.
    split; [intros [?|[?|?]]|intros [[?|?]|?]]; auto.
Qed.

(** The deleted set holds exactly the ids that some marker names. *)
Lemma collectDeleted_spec records x :
  x ∈ collectDeleted records ↔ ∃ d, d ∈ records ∧ names d x.
Proof.
  forget_codec. unfold collectDeleted.
  assert (∀ acc : gset Z,
    x ∈ fold_left
          (λ deletedIds r,
             match event r, deletedMessageIds r with
             | deleted, Some ids => fold_left (λ s i, {[i]} ∪ s) ids deletedIds
             | _, _ => deletedIds
             end) records acc
    ↔ x ∈ acc ∨ ∃ d, d ∈ records ∧ names d x) as Hgen.
  { induction records as [|r records IH]; intros acc; simpl.
    - split; [by left|]. intros [?|(d & ?%elem_of_nil & _)]; done.
    - rewrite IH. clear IH.
      assert (names r x ↔
              match event r, deletedMessageIds r with
              | deleted, Some ids => x ∈ ids
              | _, _ => False
              end) as Hr.
      { unfold names.
        destruct (event r), (deletedMessageIds r) as [ids|];
          split; try done; try (by intros [? _]);
          try (by intros (_ & ? & ? & _)).
        - by intros (_ & ? & [= <-] & ?).
        - intros ?. split; [done|]. by exists ids. }
      assert ((∃ d, d ∈ r :: records ∧ names d x)
              ↔ names r x ∨ ∃ d, d ∈ records ∧ names d x) as ->.
      { split.
        - intros (d & [->|Hd]%elem_of_cons & Hn); [by left|right; by exists d].
        - intros [Hn|(d & Hd & Hn)]; [exists r|exists d]; split; try done;
            [by left|by right]. }
      rewrite Hr.
      destruct (event r), (deletedMessageIds r) as [ids|];
        try rewrite collectDeleted_inner;
        (split; [intros [[?|?]|?] || intros [?|?]
                |intros [?|[?|?]]]); auto; done. }
  rewrite Hgen. split; [|by right].
  intros [Hx|Hx]; [|done]. by apply elem_of_empty in Hx.
Qed.

Lemma collectById_snoc D records r :
  collectById D (records ++ [r]) =
  if decide (event r = deleted) then collectById D records
  else if decide (messageId r ∈ D) then collectById D records
  else Js.mapSet (messageId r) r (collectById D records).
Proof. unfold collectById. by rewrite fold_left_app. Qed.

(** The [Map] holds, under each id, the last record of that id that is
    neither a marker nor deleted. *)
Lemma collectById_spec D records :
  NoDup (collectById D records).*1 ∧
  ∀ k, Js.mapGet k (collectById D records) =
       last (filter (λ r, event r ≠ deleted ∧ (messageId r ∉ D) ∧ messageId r = k)
               records).
Proof.
  forget_codec.
  induction records as [|r records [IHnd IH]] using rev_ind.
  - split; [constructor|done].
  - rewrite collectById_snoc.
    destruct (decide (event r = deleted)) as [Hev|Hev];
      [|destruct (decide (messageId r ∈ D)) as [HD|HD]].
    + split; [done|]. intros k. rewrite filter_app, filter_cons, filter_nil.
      rewrite decide_False by tauto. by rewrite app_nil_r.
    + split; [done|]. intros k. rewrite filter_app, filter_cons, filter_nil.
      rewrite decide_False by tauto. by rewrite app_nil_r.
    + split; [by apply mapSet_NoDup|]. intros k.
      rewrite mapGet_mapSet, filter_app, filter_cons, filter_nil.
      destruct (decide (k = messageId r)) as [->|Hk].
      * rewrite decide_True by done. by rewrite last_snoc.
      * rewrite decide_False by (intros (_ & _ & ?); done).
        by rewrite app_nil_r.
Qed.

Lemma collectById_keys D records k v :
  (k, v) ∈ collectById D records → k = messageId v.
Proof.
  destruct (collectById_spec D records) as [Hnd Hget].
  intros Hin%mapGet_elem_of; [|done]. rewrite Hget in Hin.
  apply last_filter_Some in Hin as (_ & _ & _ & (_ & _ & ?) & _). done.
Qed.

Lemma collectById_ids D records :
  messageId <$> Js.mapValues (collectById D records) = (collectById D records).*1.
Proof.
  pose proof (collectById_keys D records) as Hkeys.
  unfold Js.mapValues. induction (collectById D records) as [|[k v] m IH]; [done|].
  rewrite !fmap_cons. cbn [fst snd]. f_equal.
  - symmetry. apply Hkeys. by left.
  - apply IH. intros k' v' Hin. apply Hkeys. by right.
Qed.

(** What the canonical view holds: of each id that no marker of the log
    names, the last record that is not a marker. *)
Lemma deduplicateMessages_elem_of records v :
  v ∈ deduplicateMessages records ↔
  ∃ l1 l2, records = l1 ++ v :: l2
    ∧ event v ≠ deleted
    ∧ (messageId v ∉ collectDeleted records)
    ∧ Forall (λ r, event r ≠ deleted → messageId r ≠ messageId v) l2.
Proof.
  unfold deduplicateMessages. rewrite toSorted_perm.
  set (D := collectDeleted records).
  destruct (collectById_spec D records) as [Hnd Hget].
  unfold Js.mapValues. rewrite list_elem_of_fmap. split.
  - intros ([k v'] & -> & Hin). cbn [snd].
    apply mapGet_elem_of in Hin; [|done]. rewrite Hget in Hin.
    apply last_filter_Some in Hin as (l1 & l2 & -> & (Hev & HD & <-) & Hl2).
    exists l1, l2. split_and!; try done.
    eapply Forall_impl; [exact Hl2|]. intros r Hr Hev' Hid. apply Hr. by rewrite Hid.
  - intros (l1 & l2 & Heq & Hev & HD & Hl2).
    exists (messageId v, v). split; [done|].
    apply mapGet_elem_of; [done|]. rewrite Hget.
    apply last_filter_Some. exists l1, l2. split_and!; try done.
    eapply Forall_impl; [exact Hl2|]. intros r Hr (Hev' & _ & Hid). by apply Hr.
Qed.

(** At most one record per messageId. *)
Lemma deduplicateMessages_NoDup records :
  NoDup (messageId <$> deduplicateMessages records).
Proof.
  unfold deduplicateMessages. rewrite toSorted_perm, collectById_ids.
  apply collectById_spec.
Qed.

Lemma StronglySorted_impl {A} (R1 R2 : A → A → Prop) l :
  (∀ a b, R1 a b → R2 a b) → StronglySorted R1 l → StronglySorted R2 l.
Proof.
  intros HR. induction 1 as [|x l Hl IH Hx]; constructor; [done|].
  eapply Forall_impl; [exact Hx|]. auto.
Qed.

(** The canonical view ascends by (date, messageId). *)
Lemma deduplicateMessages_sorted records :
  StronglySorted dateIdLe (deduplicateMessages records).
Proof.
  unfold deduplicateMessages.
  eapply StronglySorted_impl; [intros a b; apply byDateThenId_le|].
  apply toSorted_sorted.
  - intros a b. rewrite !byDateThenId_le. unfold dateIdLe. lia.
  - intros a b c. rewrite !byDateThenId_le. unfold dateIdLe. lia.
Qed.

Lemma deduplicateMessages_subseteq records v :
  v ∈ deduplicateMessages records → v ∈ records.
Proof.
  intros (l1 & l2 & -> & _)%deduplicateMessages_elem_of.
  apply elem_of_app. right. by left.
Qed.

Lemma collectById_length D records :
  (length (collectById D records) ≤ length records)%nat.
Proof.
  induction records as [|r records IH] using rev_ind; [done|].
  rewrite collectById_snoc, length_app. simpl.
  repeat case_decide; try lia.
  assert (length (Js.mapSet (messageId r) r (collectById D records))
          ≤ S (length (collectById D records)))%nat; [|lia].
  rewrite <- (length_fmap fst), mapSet_keys.
  case_decide; rewrite ?length_app, !length_fmap; simpl; lia.
Qed.

(** Compaction never grows a log. *)
Lemma deduplicateMessages_length records :
  (length (deduplicateMessages records) ≤ length records)%nat.
Proof.
  unfold deduplicateMessages. rewrite toSorted_perm.
  unfold Js.mapValues. rewrite length_fmap. apply collectById_length.
Qed.

(** ** The log file *)

Lemma terminated_spec raw :
  terminated raw = true → raw = EmptyString ∨ ∃ r, raw = r +:+ newline.
Proof.
  induction raw as [|c raw IH]; [by left|].
  intros Ht. right. destruct raw as [|c' raw].
  - simpl in Ht. apply bool_decide_eq_true in Ht as ->. by exists EmptyString.
  - destruct IH as [?|[r ->]]; [done|done|]. by exists (String c r).
Qed.

Lemma terminated_app raw line :
  terminated (raw +:+ line +:+ newline) = true.
Proof.
  rewrite <- string_app_assoc. generalize (raw +:+ line). clear raw line.
  intros s. induction s as [|c s IH]; [done|].
  rewrite string_app_cons. destruct s as [|c' s]; [done|].
  rewrite string_app_cons in *. done.
Qed.

Lemma parseLines_app l1 l2 : parseLines (l1 ++ l2) = parseLines l1 ++ parseLines l2.
Proof. unfold parseLines. by rewrite filter_app, omap_app. Qed.

Lemma parseLines_blank : parseLines [EmptyString] = [].
Proof. done. Qed.

Lemma parseLines_line m : lineOk m → parseLines [JSON_stringify_message m] = [m].
Proof.
  intros (Hparse & _ & Htrim). unfold parseLines.
  rewrite filter_cons, decide_True by (by rewrite Htrim).
  simpl. by rewrite Hparse.
Qed.

(** The lines of a serialised record followed by a line feed. *)
Lemma split_line m :
  lineOk m →
  Js.split Js.LF (JSON_stringify_message m +:+ newline)
  = [JSON_stringify_message m; EmptyString].
Proof. intros (_ & Hsplit & _). unfold newline. by rewrite split_app, Hsplit. Qed.

Lemma newline_app s : newline +:+ s = String Js.LF s.
Proof. reflexivity. Qed.

Lemma split_terminated r :
  Js.split Js.LF (r +:+ newline) = Js.split Js.LF r ++ [EmptyString].
Proof. unfold newline. by rewrite split_app. Qed.

(** Reading back after an append: the records read before, then the new
    one. *)
Lemma readJsonl_append fs p m :
  logOk fs p → lineOk m →
  readJsonl (Fs.appendFileSync fs p (JSON_stringify_message m +:+ newline)) p
  = readJsonl fs p ++ [m].
Proof.
  unfold logOk, readJsonl, Fs.appendFileSync, Fs.readFileSync. cbn [Fs.files].
  intros Hok Hm. rewrite lookup_insert_eq.
  destruct (Fs.files fs !! p) as [raw|]; cbn [default from_option] in *; unfold id.
  - apply terminated_spec in Hok as [->|[r ->]].
    + rewrite string_app_nil_l, split_line by done.
      change [JSON_stringify_message m; EmptyString]
        with ([JSON_stringify_message m] ++ [EmptyString]).
      by rewrite parseLines_app, parseLines_line, parseLines_blank.
    + rewrite string_app_assoc, newline_app, split_app, split_line by done.
      rewrite split_terminated.
      change [JSON_stringify_message m; EmptyString]
        with ([JSON_stringify_message m] ++ [EmptyString]).
      by rewrite !parseLines_app, parseLines_line, parseLines_blank, !app_nil_r.
  - rewrite string_app_nil_l, split_line by done.
    change [JSON_stringify_message m; EmptyString]
      with ([JSON_stringify_message m] ++ [EmptyString]).
    by rewrite parseLines_app, parseLines_line, parseLines_blank.
Qed.

Lemma logOk_append fs p line :
  logOk (Fs.appendFileSync fs p (line +:+ newline)) p.
Proof.
  unfold logOk, Fs.appendFileSync, Fs.readFileSync. cbn [Fs.files].
  rewrite lookup_insert_eq. cbn [from_option]. apply terminated_app.
Qed.

Lemma appendBusinessMessage_read fs baseDir chatId m :
  logOk fs (logPath baseDir chatId) → lineOk m →
  readJsonl (appendBusinessMessage fs baseDir chatId m) (logPath baseDir chatId)
  = readJsonl fs (logPath baseDir chatId) ++ [m].
Proof. apply readJsonl_append. Qed.

Lemma appendBusinessMessage_logOk fs baseDir chatId m :
  logOk (appendBusinessMessage fs baseDir chatId m) (logPath baseDir chatId).
Proof. apply logOk_append. Qed.

(** A sequence of appends reads back as the sequence of the records. *)
Lemma appendAll_read fs baseDir chatId records :
  logOk fs (logPath baseDir chatId) → Forall lineOk records →
  readJsonl (appendAll fs baseDir chatId records) (logPath baseDir chatId)
  = readJsonl fs (logPath baseDir chatId) ++ records.
Proof.
  intros Hok Hrs. revert fs Hok.
  induction Hrs as [|m records Hm Hrs IH]; intros fs Hok; simpl.
  - by rewrite app_nil_r.
  - rewrite IH by apply appendBusinessMessage_logOk.
    rewrite appendBusinessMessage_read by done. by rewrite <- app_assoc.
Qed.

Lemma join_cons sep a b l :
  Js.join sep (a :: b :: l) = a +:+ sep +:+ Js.join sep (b :: l).
Proof. reflexivity. Qed.

(** The text a prune writes reads back as the records it was made from. *)
Lemma parseLines_join messages :
  Forall lineOk messages →
  parseLines
    (Js.split Js.LF
       (Js.join newline (JSON_stringify_message <$> messages) +:+ newline))
  = messages.
Proof.
  induction 1 as [|m messages Hm Hms IH]; [done|].
  destruct messages as [|m' messages].
  - simpl. rewrite split_line by done.
    change [JSON_stringify_message m; EmptyString]
      with ([JSON_stringify_message m] ++ [EmptyString]).
    by rewrite parseLines_app, parseLines_line, parseLines_blank.
  - rewrite (fmap_cons _ m), (fmap_cons _ m'), join_cons.
    rewrite <- (fmap_cons _ m').
    rewrite string_app_assoc, string_app_assoc, newline_app, split_app.
    destruct Hm as (Hp & Hsplit & Ht). rewrite Hsplit.
    rewrite parseLines_app, parseLines_line by done.
    simpl. f_equal. exact IH.
Qed.

(** ** Compaction of what was appended *)

(** A marker anywhere in the log removes the ids it names. *)
Lemma deduplicateMessages_deleted records d x v :
  d ∈ records → names d x → v ∈ deduplicateMessages records → messageId v ≠ x.
Proof.
  intros Hd Hn (l1 & l2 & _ & _ & HD & _)%deduplicateMessages_elem_of <-.
  apply HD, collectDeleted_spec. eauto.
Qed.

(** An id that no marker of the log names and that has a record that is
    not a marker is in the canonical view. *)
Lemma deduplicateMessages_complete records r :
  r ∈ records → event r ≠ deleted →
  (∀ d, d ∈ records → ¬ names d (messageId r)) →
  ∃ v, v ∈ deduplicateMessages records ∧ messageId v = messageId r.
Proof.
  intros Hr Hev Hnames.
  assert (messageId r ∉ collectDeleted records) as HD.
  { rewrite collectDeleted_spec. intros (d & Hd & Hn). by eapply Hnames. }
  destruct (collectById_spec (collectDeleted records) records) as [Hnd Hget].
  specialize (Hget (messageId r)).
  set (P := λ r0, event r0 ≠ deleted ∧ (messageId r0 ∉ collectDeleted records)
                  ∧ messageId r0 = messageId r) in Hget.
  assert (r ∈ filter P records) as Hin by (apply list_elem_of_filter; done).
  destruct (filter P records) as [|x l _] using rev_ind;
    [by apply elem_of_nil in Hin|].
  rewrite last_snoc in Hget. apply mapGet_elem_of in Hget; [|done].
  exists x. split.
  - unfold deduplicateMessages. rewrite toSorted_perm.
    unfold Js.mapValues. apply list_elem_of_fmap. by exists (messageId r, x).
  - symmetry. by eapply collectById_keys.
Qed.

(** C1: for every sequence of records appended to a new chat, the compacted
    view of the records read back holds at most one record per messageId,
    and it holds a record exactly when that record is the last record of
    the sequence with its id that is not a deletion marker and no deletion
    marker of the sequence, before the record or after it, names its id. *)
Theorem canonical_after_appends fs baseDir chatId records :
  Fs.readFileSync fs (logPath baseDir chatId) = None →
  Forall lineOk records →
  let view := canonical (appendAll fs baseDir chatId records) baseDir chatId in
  NoDup (messageId <$> view) ∧
  ∀ v, v ∈ view ↔
    ∃ earlier later, records = earlier ++ v :: later
      ∧ event v ≠ deleted
      ∧ Forall (λ r, event r ≠ deleted → messageId r ≠ messageId v) later
      ∧ Forall (λ d, ¬ names d (messageId v)) records.
Proof.
  intros Hnew Hok view. subst view. unfold canonical.
  rewrite appendAll_read; [|by unfold logOk; rewrite Hnew|done].
  unfold readJsonl at 1 2. rewrite Hnew, app_nil_l.
  split; [apply deduplicateMessages_NoDup|].
  intros v. rewrite deduplicateMessages_elem_of.
  split; intros (l1 & l2 & Hsplit & Hev & HD & Hl2); exists l1, l2;
    (split; [exact Hsplit|]); (split; [exact Hev|]).
  - split; [exact Hl2|]. apply Forall_forall. intros d Hd Hn.
    apply HD, collectDeleted_spec. by exists d.
  - split; [|exact HD]. intros (d & Hd & Hn)%collectDeleted_spec.
    rewrite Forall_forall in Hl2. by apply (Hl2 d).
Qed.

(** C2: a deletion marker naming X, appended to any log of whole lines,
    leaves no record of X in the canonical view, whatever records of X came
    before; and a new record of id 1, an edit of it and a marker naming 1,
    appended to a new chat, leave the canonical view empty. *)
Theorem deletion_marker_removes fs baseDir chatId ids conn now x :
  (logOk fs (logPath baseDir chatId) →
   lineOk (deletionMarker ids conn now) →
   x ∈ ids →
   ∀ v, v ∈ canonical (appendDeletionMarker fs baseDir chatId ids conn now)
              baseDir chatId →
        messageId v ≠ x)
  ∧ (∀ a b,
       Fs.readFileSync fs (logPath baseDir chatId) = None →
       messageId a = 1 → event a = new →
       messageId b = 1 → event b = edited →
       lineOk a → lineOk b → lineOk (deletionMarker [1] conn now) →
       canonical
         (appendDeletionMarker
            (appendBusinessMessage (appendBusinessMessage fs baseDir chatId a)
               baseDir chatId b)
            baseDir chatId [1] conn now)
         baseDir chatId = []).
Proof.
  split.
  - intros Hok Hm Hx v. unfold canonical, appendDeletionMarker.
    rewrite appendBusinessMessage_read by done.
    apply deduplicateMessages_deleted with (d := deletionMarker ids conn now).
    + apply elem_of_app. right. by left.
    + split; [done|]. by exists ids.
  - intros a b Hnew Ha Hea Hb Heb Hla Hlb Hlm.
    unfold canonical, appendDeletionMarker.
    rewrite !appendBusinessMessage_read;
      try done; try apply appendBusinessMessage_logOk;
      [|by unfold logOk; rewrite Hnew].
    unfold readJsonl. rewrite Hnew. simpl.
    set (m := deletionMarker [1] conn now).
    destruct (deduplicateMessages [a; b; m]) as [|v view] eqn:Hview; [done|].
    assert (v ∈ deduplicateMessages [a; b; m]) as Hv by (rewrite Hview; by left).
    pose proof (deduplicateMessages_subseteq _ _ Hv) as Hin.
    assert (messageId v ≠ 1) as Hne.
    { eapply (deduplicateMessages_deleted _ m); [|split; [done|]|exact Hv].
      - by do 2 right; left.
      - exists [1]. split; [done|]. by left. }
    apply deduplicateMessages_elem_of in Hv as (_ & _ & _ & Hev & _).
    apply elem_of_cons in Hin as [->|Hin]; [done|].
    apply elem_of_cons in Hin as [->|Hin]; [done|].
    apply list_elem_of_singleton in Hin as ->. done.
Qed.

(** ** Pruning *)

Lemma logPath_metaPath baseDir chatId : metaPath baseDir chatId ≠ logPath baseDir chatId.
Proof. unfold metaPath, logPath, Fs.join. intros Heq%app_inv_head. done. Qed.

Lemma syncMessageCount_log fs baseDir chatId count :
  Fs.readFileSync (syncMessageCount fs baseDir chatId count) (logPath baseDir chatId)
  = Fs.readFileSync fs (logPath baseDir chatId).
Proof.
  unfold syncMessageCount.
  destruct (Fs.readFileSync fs _) as [metaRaw|]; [|done].
  destruct (JSON_parse_meta metaRaw) as [meta|]; [|done].
  unfold Fs.readFileSync, Fs.writeFileSync. cbn [Fs.files].
  apply lookup_insert_ne, logPath_metaPath.
Qed.

Lemma syncMessageCount_journal fs baseDir chatId count :
  ∃ written, Fs.journal (syncMessageCount fs baseDir chatId count)
             = written ++ Fs.journal fs.
Proof.
  unfold syncMessageCount.
  destruct (Fs.readFileSync fs _) as [metaRaw|]; [|by exists []].
  destruct (JSON_parse_meta metaRaw) as [meta|]; [|by exists []].
  by exists [Fs.join (chatDir baseDir chatId) [META_FILE]].
Qed.

(** The early returns of a prune with no age limit. *)
Lemma prune_small fs baseDir chatId n age now :
  default 0 age <= 0 →
  n <= 0 ∨ Z.of_nat (length (readJsonl fs (logPath baseDir chatId))) <= n →
  maybePruneChatMessages fs baseDir chatId
    {| maxMessages := Some n; maxAgeDays := age |} now = fs.
Proof.
  intros Hage Hn. unfold maybePruneChatMessages. fold (logPath baseDir chatId).
  cbv zeta. cbn [maxMessages maxAgeDays default from_option id].
  destruct (decide (n <= 0 ∧ default 0 age <= 0)) as [|Hlim]; [done|].
  destruct (decide (length (readJsonl fs (logPath baseDir chatId)) = 0%nat))
    as [|Hraw]; [done|].
  rewrite decide_True; [done|]. lia.
Qed.

(** A prune leaves the log made of whole lines. *)
Lemma maybePruneChatMessages_logOk fs baseDir chatId opts now :
  logOk fs (logPath baseDir chatId) →
  logOk (maybePruneChatMessages fs baseDir chatId opts now) (logPath baseDir chatId).
Proof.
  intros Hok. unfold maybePruneChatMessages. fold (logPath baseDir chatId).
  cbv zeta. repeat (case_decide; [done|]).
  unfold logOk. rewrite syncMessageCount_log.
  unfold Fs.readFileSync, Fs.writeFileSync. cbn [Fs.files].
  rewrite lookup_insert_eq. cbn [from_option].
  apply (terminated_app EmptyString).
Qed.

(** C9: with no age limit and a raw record count within [maxMessages],
    pruning returns the state it was given: the log, with its duplicate
    edits and its deletion markers, the metadata and the journal of writes
    are as before. *)
Theorem prune_within_limit fs baseDir chatId opts now :
  default 0 (maxAgeDays opts) <= 0 →
  Z.of_nat (length (readJsonl fs (logPath baseDir chatId)))
    <= default 0 (maxMessages opts) →
  maybePruneChatMessages fs baseDir chatId opts now = fs.
Proof.
  intros Hage Hcount. unfold maybePruneChatMessages. fold (logPath baseDir chatId).
  cbv zeta. repeat (case_decide; [done|]).
  exfalso. destruct (readJsonl fs (logPath baseDir chatId)); simpl in *; [done|lia].
Qed.

(** What a prune that has work to do leaves behind. *)
Lemma prune_rewrites fs baseDir chatId n age now :
  let raw := readJsonl fs (logPath baseDir chatId) in
  let view := deduplicateMessages raw in
  let fs' := maybePruneChatMessages fs baseDir chatId
               {| maxMessages := Some n; maxAgeDays := age |} now in
  default 0 age <= 0 → Forall lineOk raw →
  0 < n → n < Z.of_nat (length raw) →
  readJsonl fs' (logPath baseDir chatId) = drop (length view - Z.to_nat n) view
  ∧ Fs.journal fs' ≠ Fs.journal fs.
Proof.
  intros raw view fs' Hage Hok Hn Hraw. subst fs'.
  unfold maybePruneChatMessages. fold (logPath baseDir chatId). cbv zeta.
  cbn [maxMessages maxAgeDays default from_option id]. fold raw. fold view.
  rewrite decide_False by lia.
  rewrite decide_False by (intros Hz; rewrite Hz in Hraw; simpl in Hraw; lia).
  rewrite decide_False by lia.
  rewrite (decide_False (P := default 0 age > 0)) by lia.
  set (messages :=
         if decide (n > 0 ∧ Z.of_nat (length view) > n)
         then Js.slice (- n) view else view).
  assert (messages = drop (length view - Z.to_nat n) view) as Hmessages.
  { subst messages. case_decide as Hc.
    - by apply slice_last.
    - replace (length view - Z.to_nat n)%nat with 0%nat by lia. done. }
  assert (length messages < length raw)%nat as Hlen.
  { rewrite Hmessages, length_drop. lia. }
  rewrite decide_False by lia.
  split.
  - unfold readJsonl at 1. rewrite syncMessageCount_log.
    unfold Fs.readFileSync, Fs.writeFileSync. cbn [Fs.files].
    rewrite lookup_insert_eq, parseLines_join; [done|].
    apply Forall_forall. intros m Hm.
    rewrite Forall_forall in Hok. apply Hok.
    apply deduplicateMessages_subseteq. fold view.
    rewrite Hmessages in Hm. by eapply subseteq_drop.
  - destruct (syncMessageCount_journal
                (Fs.writeFileSync fs (logPath baseDir chatId)
                   (Js.join newline (JSON_stringify_message <$> messages)
                    +:+ newline))
                baseDir chatId (Z.of_nat (length messages))) as [written ->].
    cbn [Fs.writeFileSync Fs.journal]. intros Heq.
    apply (f_equal length) in Heq. rewrite length_app in Heq. simpl in Heq. lia.
Qed.

(** C3 (amended): with [maxMessages = n] and no age limit, a prune of a log
    of more than [n > 0] records rewrites it to exactly [min n c] records,
    the last ones of the canonical view, [c] being the size of that view;
    a log of at most [n] records (or any log when [n <= 0]) is left as it
    is; a second prune with the same parameters returns the state
    unchanged, journal of writes included; and the file is written only
    when fewer records are retained than the log held. *)
Theorem prune_count fs baseDir chatId n age now :
  let opts := {| maxMessages := Some n; maxAgeDays := age |} in
  let raw := readJsonl fs (logPath baseDir chatId) in
  let view := deduplicateMessages raw in
  let fs' := maybePruneChatMessages fs baseDir chatId opts now in
  let kept := readJsonl fs' (logPath baseDir chatId) in
  default 0 age <= 0 → Forall lineOk raw →
  (0 < n < Z.of_nat (length raw) →
     kept = drop (length view - Z.to_nat n) view
     ∧ Z.of_nat (length kept) = Z.min n (Z.of_nat (length view)))
  ∧ (n <= 0 ∨ Z.of_nat (length raw) <= n → fs' = fs)
  ∧ maybePruneChatMessages fs' baseDir chatId opts now = fs'
  ∧ (Fs.journal fs' ≠ Fs.journal fs → (length kept < length raw)%nat).
Proof.
  cbv zeta. intros Hage Hok.
  set (opts := {| maxMessages := Some n; maxAgeDays := age |}).
  pose proof (prune_small fs baseDir chatId n age now Hage) as Hsame.
  fold opts in Hsame.
  pose proof (prune_rewrites fs baseDir chatId n age now) as Hcut.
  cbv zeta in Hcut. fold opts in Hcut. specialize (Hcut Hage Hok).
  split_and!; [| done | |].
  - intros [Hn Hraw]. destruct (Hcut Hn Hraw) as [-> _].
    split; [done|]. rewrite length_drop. lia.
  - destruct (decide (0 < n < Z.of_nat (length (readJsonl fs (logPath baseDir chatId)))))
      as [[Hn Hraw]|Hn].
    + apply prune_small; [done|]. right.
      destruct (Hcut Hn Hraw) as [-> _]. rewrite length_drop. lia.
    + rewrite Hsame by lia. apply Hsame. lia.
  - intros Hj.
    destruct (decide (0 < n < Z.of_nat (length (readJsonl fs (logPath baseDir chatId)))))
      as [[Hn Hraw]|Hn].
    + destruct (Hcut Hn Hraw) as [-> _]. rewrite length_drop.
      pose proof (deduplicateMessages_length (readJsonl fs (logPath baseDir chatId))).
      lia.
    + rewrite Hsame in Hj by lia. done.
Qed.

(** ** Pagination *)

Lemma filter_all {A} (P : A → Prop) `{!∀ x, Decision (P x)} (l : list A) :
  (∀ x, P x) → filter P l = l.
Proof.
  intros HP. induction l as [|x l IH]; [done|].
  by rewrite filter_cons_True, IH.
Qed.

Lemma StronglySorted_sublist {A} (R : A → A → Prop) l1 l2 :
  l1 `sublist_of` l2 → StronglySorted R l2 → StronglySorted R l1.
Proof.
  induction 1 as [|x l1 l2 Hsub IH|x l1 l2 Hsub IH]; intros Hs.
  - constructor.
  - apply StronglySorted_inv in Hs as [Hs Hx].
    constructor; [by apply IH|].
    rewrite Forall_forall in *. intros y Hy. apply Hx.
    by eapply sublist_subseteq.
  - apply StronglySorted_inv in Hs as [Hs _]. by apply IH.
Qed.

Lemma readJsonl_missing fs p : Fs.readFileSync fs p = None → readJsonl fs p = [].
Proof. unfold readJsonl. by intros ->. Qed.

Lemma deduplicateMessages_nil : deduplicateMessages [] = [].
Proof. done. Qed.

(** The two filters of [loadChatMessages] select the messages within the
    bounds; the limit then keeps the tail. *)
Lemma loadChatMessages_unfold fs baseDir chatId opts :
  loadChatMessages fs baseDir chatId opts =
  let filtered :=
    filter (withinBounds (opts ≫= after) (opts ≫= before))
      (canonical fs baseDir chatId) in
  let lim := default 50 (opts ≫= limit) in
  if decide (lim > 0 ∧ Z.of_nat (length filtered) > lim)
  then drop (length filtered - Z.to_nat lim) filtered
  else filtered.
Proof.
  forget_codec.
  unfold loadChatMessages, canonical. fold (logPath baseDir chatId). cbv zeta.
  set (view := deduplicateMessages (readJsonl fs (logPath baseDir chatId))).
  assert (match opts ≫= before with
          | Some b =>
              filter (λ m, messageId m < b)
                match opts ≫= after with
                | Some a => filter (λ m, messageId m > a) view
                | None => view
                end
          | None =>
              match opts ≫= after with
              | Some a => filter (λ m, messageId m > a) view
              | None => view
              end
          end
          = filter (withinBounds (opts ≫= after) (opts ≫= before)) view) as ->.
  { destruct (opts ≫= after) as [a|], (opts ≫= before) as [b|].
    - rewrite list_filter_filter. apply list_filter_iff.
      intros m. unfold withinBounds. simpl. tauto.
    - apply list_filter_iff. intros m. unfold withinBounds. simpl. tauto.
    - apply list_filter_iff. intros m. unfold withinBounds. simpl. tauto.
    - symmetry. apply filter_all. unfold withinBounds. simpl. tauto. }
  case_decide as Hc; [|done]. apply slice_last. lia.
Qed.

(** C5: the bounds are applied to the canonical view first; when more than
    [limit] messages remain (50 when unset, no cut when [limit <= 0]) the
    result is the last [limit] of them, otherwise all of them; either way
    it ascends by (date, messageId). *)
Theorem load_limit fs baseDir chatId opts :
  let filtered :=
    filter (withinBounds (opts ≫= after) (opts ≫= before))
      (canonical fs baseDir chatId) in
  let lim := default 50 (opts ≫= limit) in
  let result := loadChatMessages fs baseDir chatId opts in
  (0 < lim < Z.of_nat (length filtered) →
     result = drop (length filtered - Z.to_nat lim) filtered
     ∧ length result = Z.to_nat lim)
  ∧ (lim <= 0 ∨ Z.of_nat (length filtered) <= lim → result = filtered)
  ∧ StronglySorted dateIdLe result.
Proof.
  cbv zeta. rewrite loadChatMessages_unfold. cbv zeta.
  set (filtered := filter _ (canonical fs baseDir chatId)).
  set (lim := default 50 (opts ≫= limit)).
  assert (StronglySorted dateIdLe filtered) as Hsorted.
  { eapply StronglySorted_sublist; [apply sublist_filter|].
    apply deduplicateMessages_sorted. }
  split_and!.
  - intros Hlim. rewrite decide_True by lia.
    split; [done|]. rewrite length_drop. lia.
  - intros Hlim. by rewrite decide_False by lia.
  - case_decide; [|done].
    eapply StronglySorted_sublist; [apply sublist_drop|exact Hsorted].
Qed.

(** C4 (amended): every message returned is a message of the canonical
    view that lies above [after] and below [before], for each bound that is
    set; when the limit does not cut (it is [<= 0], or at least the number
    of messages within the bounds) the result is exactly the messages of
    the canonical view within the bounds; and a chat with no log file, or
    with no record in it, gives the empty sequence. *)
Theorem load_bounds fs baseDir chatId opts :
  let view := canonical fs baseDir chatId in
  let inBounds := withinBounds (opts ≫= after) (opts ≫= before) in
  let lim := default 50 (opts ≫= limit) in
  let result := loadChatMessages fs baseDir chatId opts in
  (∀ m, m ∈ result →
     m ∈ view
     ∧ (∀ a, opts ≫= after = Some a → messageId m > a)
     ∧ (∀ b, opts ≫= before = Some b → messageId m < b))
  ∧ (lim <= 0 ∨ Z.of_nat (length (filter inBounds view)) <= lim →
     result = filter inBounds view)
  ∧ (Fs.readFileSync fs (logPath baseDir chatId) = None → result = [])
  ∧ (readJsonl fs (logPath baseDir chatId) = [] → result = []).
Proof.
  cbv zeta. rewrite loadChatMessages_unfold. cbv zeta.
  set (view := canonical fs baseDir chatId).
  set (filtered := filter _ view).
  set (lim := default 50 (opts ≫= limit)).
  assert (readJsonl fs (logPath baseDir chatId) = [] → filtered = []) as Hempty.
  { intros Hraw. subst filtered view. unfold canonical. by rewrite Hraw. }
  split_and!.
  - intros m Hm.
    assert (m ∈ filtered) as Hf.
    { case_decide; [|done]. by eapply subseteq_drop. }
    apply list_elem_of_filter in Hf as [[Ha Hb] Hview].
    split_and!; [done| |].
    + intros a Heq. by rewrite Heq in Ha.
    + intros b Heq. by rewrite Heq in Hb.
  - intros Hlim. by rewrite decide_False by lia.
  - intros Hnone%readJsonl_missing. rewrite (Hempty Hnone).
    by case_decide.
  - intros Hraw. rewrite (Hempty Hraw). by case_decide.
Qed.

(** ** Search *)

Lemma searchMessages_spec lowerQuery lim cid results messages :
  searchMessages lowerQuery lim cid results messages =
  results ++
  take (Z.to_nat lim - length results)
    ((λ m, {| found := m; foundIn := cid |}) <$>
       filter (λ m, Js.includes (Js.toLowerCase (searchText m)) lowerQuery = true)
         messages).
Proof.
  revert results. induction messages as [|m messages IH]; intros results.
  - simpl. by rewrite take_nil, app_nil_r.
  - cbn [searchMessages]. case_decide as Hfull.
    + replace (Z.to_nat lim - length results)%nat with 0%nat by lia.
      by rewrite take_0, app_nil_r.
    + cbv zeta. rewrite IH, filter_cons.
      destruct (Js.includes (Js.toLowerCase (searchText m)) lowerQuery) eqn:Hinc.
      * rewrite decide_True by done. rewrite fmap_cons, length_app. simpl.
        replace (Z.to_nat lim - length results)%nat
          with (S (Z.to_nat lim - (length results + 1)))%nat by lia.
        by rewrite <- app_assoc.
      * by rewrite decide_False by done.
Qed.

Lemma searchChats_spec fs baseDir query lim results chatIds :
  searchChats fs baseDir (Js.toLowerCase query) lim results chatIds =
  results ++
  take (Z.to_nat lim - length results)
    (chatIds ≫= chatMatches fs baseDir query).
Proof.
  revert results. induction chatIds as [|cid chatIds IH]; intros results.
  - simpl. by rewrite take_nil, app_nil_r.
  - cbn [searchChats]. case_decide as Hfull.
    + replace (Z.to_nat lim - length results)%nat with 0%nat by lia.
      by rewrite take_0, app_nil_r.
    + cbv zeta. rewrite IH, searchMessages_spec. fold (logPath baseDir cid).
      fold (canonical fs baseDir cid). fold (chatMatches fs baseDir query cid).
      rewrite bind_cons, <- app_assoc. f_equal.
      rewrite take_app, length_app, length_take. f_equal. f_equal. lia.
Qed.


(** ** The connection registry *)

Lemma activeStep_fold conns best :
  let result := fold_left activeStep conns best in
  (result = None ↔
     best = None ∧ ∀ c, c ∈ conns → Connection.isEnabled c = false)
  ∧ ∀ c, result = Some c →
      (best = Some c ∨ (c ∈ conns ∧ Connection.isEnabled c = true))
      ∧ (∀ b, best = Some b → Connection.updatedAt b <= Connection.updatedAt c)
      ∧ ∀ c', c' ∈ conns → Connection.isEnabled c' = true →
          Connection.updatedAt c' <= Connection.updatedAt c.
Proof.
  cbv zeta. revert best. induction conns as [|conn conns IH]; intros best.
  - simpl. split.
    + split; [intros ->; split; [done|]|by intros [-> _]].
      by intros c ?%elem_of_nil.
    + intros c ->. split_and!; [by left|by intros b [= ->]|].
      by intros c' ?%elem_of_nil.
  - cbn [fold_left]. destruct (IH (activeStep best conn)) as [IHnone IHsome].
    split.
    + rewrite IHnone. unfold activeStep.
      destruct (Connection.isEnabled conn) eqn:Hen; simpl.
      * split.
        -- intros [Hb _]. destruct best as [b|]; [|done]. by case_match.
        -- intros [_ Hall]. specialize (Hall conn). rewrite Hen in Hall.
           exfalso. by discriminate Hall; left.
      * split.
        -- intros [-> Hall]. split; [done|].
           intros c [->|?]%elem_of_cons; [done|by apply Hall].
        -- intros [-> Hall]. split; [done|]. intros c ?. apply Hall. by right.
    + intros c Hc. destruct (IHsome c Hc) as (Hfrom & Hbest & Hmax).
      unfold activeStep in Hfrom, Hbest.
      destruct (Connection.isEnabled conn) eqn:Hen; simpl in *.
      * destruct best as [b|].
        -- destruct (Z.gtb_spec (Connection.updatedAt conn) (Connection.updatedAt b))
             as [Hgt|Hle].
           ++ split_and!.
              ** destruct Hfrom as [[= <-]|[? ?]]; right; split; try done;
                   [by left|by right].
              ** intros b' [= <-]. specialize (Hbest conn eq_refl). lia.
              ** intros c' [->|?]%elem_of_cons ?; [by apply Hbest|by apply Hmax].
           ++ split_and!.
              ** destruct Hfrom as [?|[? ?]]; [by left|]. right. split; [by right|done].
              ** done.
              ** intros c' [->|?]%elem_of_cons ?; [|by apply Hmax].
                 specialize (Hbest b eq_refl). lia.
        -- split_and!.
           ++ destruct Hfrom as [[= <-]|[? ?]]; right; split; try done;
                [by left|by right].
           ++ done.
           ++ intros c' [->|?]%elem_of_cons ?; [by apply Hbest|by apply Hmax].
      * split_and!.
        -- destruct Hfrom as [?|[? ?]]; [by left|]. right. split; [by right|done].
        -- done.
        -- intros c' [->|?]%elem_of_cons ?; [congruence|by apply Hmax].
Qed.

Lemma activeStep_filter conns best :
  fold_left activeStep conns best =
  fold_left activeStep (filter (λ c, Connection.isEnabled c = true) conns) best.
Proof.
  revert best. induction conns as [|conn conns IH]; intros best; [done|].
  rewrite filter_cons. destruct (decide (Connection.isEnabled conn = true)) as [Hen|Hen].
  - simpl. apply IH.
  - simpl. rewrite IH. f_equal. unfold activeStep.
    by destruct (Connection.isEnabled conn).
Qed.

(** C7: the active connection id is undefined exactly when no connection of
    the store is enabled; otherwise it is the id of an enabled connection
    whose [updatedAt] no enabled connection exceeds; and the disabled
    connections have no say: the result is the one computed from the
    enabled connections alone. *)
Theorem active_connection fs baseDir :
  let conns := (connections (loadBusinessConnections fs baseDir)).*2 in
  let active := getActiveBusinessConnectionId fs baseDir in
  (active = None ↔ ∀ c, c ∈ conns → Connection.isEnabled c = false)
  ∧ (∀ i, active = Some i →
       ∃ c, c ∈ conns ∧ Connection.id c = i
         ∧ Connection.isEnabled c = true
         ∧ ∀ c', c' ∈ conns → Connection.isEnabled c' = true →
             Connection.updatedAt c' <= Connection.updatedAt c)
  ∧ active =
      Connection.id <$>
        fold_left activeStep
          (filter (λ c, Connection.isEnabled c = true) conns) None.
Proof.
  cbv zeta. unfold getActiveBusinessConnectionId. cbv zeta.
  set (conns := (connections (loadBusinessConnections fs baseDir)).*2).
  destruct (activeStep_fold conns None) as [Hnone Hsome].
  split_and!.
  - rewrite fmap_None, Hnone. split; [by intros [_ ?]|by split].
  - intros i (c & Hc & ->)%fmap_Some.
    destruct (Hsome c Hc) as ([?|[? ?]] & _ & Hmax); [done|].
    exists c. by split_and!.
  - by rewrite activeStep_filter.
Qed.

(** C8: whatever is on disk, the store that is loaded has version 1; it is
    the empty store when the document is missing, does not parse, is
    [null], has another version or has no connections map, and the parsed
    document otherwise. *)
Theorem load_connections_default fs baseDir :
  let store := loadBusinessConnections fs baseDir in
  version store = 1
  ∧ (Fs.readFileSync fs (connectionsPath baseDir) = None → store = emptyStore)
  ∧ (∀ raw, Fs.readFileSync fs (connectionsPath baseDir) = Some raw →
       (JSON_parse_store raw = None → store = emptyStore)
       ∧ (JSON_parse_store raw = Some ParsedNull → store = emptyStore)
       ∧ (∀ v conns, JSON_parse_store raw = Some (ParsedValue v conns) →
            v ≠ Some 1 → store = emptyStore)
       ∧ (∀ v, JSON_parse_store raw = Some (ParsedValue v None) →
            store = emptyStore)
       ∧ (∀ conns, JSON_parse_store raw = Some (ParsedValue (Some 1) (Some conns)) →
            store = {| version := 1; connections := conns |})).
Proof.
  forget_codec.
  cbv zeta. unfold loadBusinessConnections. cbv zeta.
  destruct (Fs.readFileSync fs (connectionsPath baseDir)) as [raw|]; [|naive_solver].
  split_and!.
  - destruct (JSON_parse_store raw) as [[|v [conns|]]|]; try done;
      by case_decide.
  - done.
  - intros ? [= <-]. split_and!.
    + by intros ->.
    + by intros ->.
    + intros v conns -> Hv. by rewrite decide_False.
    + intros v ->. by case_decide.
    + intros conns ->. by rewrite decide_True.
Qed.

(** ** Chat metadata *)

(** C10: the metadata written by an update is the stored one with every
    property whose key the partial carries overwritten, by [undefined] too,
    so that a partial with [lastName = undefined] erases a stored last name;
    the properties whose keys are absent keep their stored values, [chatId]
    is the chat id given, and [messageCount] grows by exactly one when
    [incrementCount] is set and is unchanged otherwise. *)
Theorem updateChatMeta_merge fs baseDir cid partial :
  let existing := existingChatMeta fs baseDir cid in
  let updated := updatedChatMeta existing cid partial in
  let fs' := updateChatMeta fs baseDir cid partial in
  Fs.readFileSync fs' (metaPath baseDir cid) = Some (JSON_stringify_meta updated)
  ∧ (JSON_parse_meta (JSON_stringify_meta updated) = Some updated →
     existingChatMeta fs' baseDir cid = updated)
  ∧ chatId updated = cid
  ∧ (∀ v, p_firstName partial = Some v → firstName updated = v)
  ∧ (∀ v, p_lastName partial = Some v → lastName updated = v)
  ∧ (∀ v, p_username partial = Some v → username updated = v)
  ∧ (∀ v, p_lastMessageAt partial = Some v → lastMessageAt updated = v)
  ∧ (p_lastName partial = Some None → lastName updated = None)
  ∧ (p_firstName partial = None → firstName updated = firstName existing)
  ∧ (p_lastName partial = None → lastName updated = lastName existing)
  ∧ (p_username partial = None → username updated = username existing)
  ∧ (p_lastMessageAt partial = None →
     lastMessageAt updated = lastMessageAt existing)
  ∧ (incrementCount partial = Some true →
     messageCount updated = messageCount existing + 1)
  ∧ (incrementCount partial ≠ Some true →
     messageCount updated = messageCount existing).
Proof.
  cbv zeta.
  assert (Fs.readFileSync (updateChatMeta fs baseDir cid partial)
            (metaPath baseDir cid)
          = Some (JSON_stringify_meta
                    (updatedChatMeta (existingChatMeta fs baseDir cid)
                       cid partial))) as Hread.
  { unfold updateChatMeta, Fs.readFileSync, Fs.writeFileSync, metaPath.
    cbn [Fs.files]. apply lookup_insert_eq. }
  split; [done|]. split.
  { intros Hparse. unfold existingChatMeta at 1. fold (metaPath baseDir cid).
    cbv zeta. by rewrite Hread, Hparse. }
  unfold updatedChatMeta, spread. simpl.
  split_and!; try done; try (by intros v ->); try (by intros ->).
  destruct (incrementCount partial) as [[|]|]; done.
Qed.

(** ** Compaction as a fixpoint *)

Lemma mapSet_fresh {A} k (v : A) m :
  k ∉ m.*1 → Js.mapSet k v m = m ++ [(k, v)].
Proof.
  induction m as [|[k' v'] m IH]; [done|].
  rewrite fmap_cons, not_elem_of_cons. cbn [fst]. intros [Hne Hk].
  cbn [Js.mapSet]. rewrite decide_False by done. by rewrite IH.
Qed.

Lemma collectDeleted_no_marker records :
  (∀ r, r ∈ records → event r ≠ deleted) → collectDeleted records = ∅.
Proof.
  intros Hev. apply elem_of_equiv_empty_L. intros x.
  rewrite collectDeleted_spec. intros (d & Hd & Hdel & _). by eapply Hev.
Qed.

Lemma collectDeleted_snoc records m :
  event m ≠ deleted → collectDeleted (records ++ [m]) = collectDeleted records.
Proof.
  intros Hev. apply set_eq. intros x. rewrite !collectDeleted_spec. split.
  - intros (d & [Hd| ->%list_elem_of_singleton]%elem_of_app & Hn).
    + by exists d.
    + by destruct Hn.
  - intros (d & Hd & Hn). exists d. split; [|done]. apply elem_of_app. by left.
Qed.

Lemma collectById_distinct records :
  NoDup (messageId <$> records) →
  (∀ r, r ∈ records → event r ≠ deleted) →
  collectById ∅ records = (λ r, (messageId r, r)) <$> records.
Proof.
  induction records as [|r records IH] using rev_ind; intros Hnd Hev; [done|].
  rewrite fmap_app in Hnd. apply NoDup_app in Hnd as (Hnd & Hfresh & _).
  rewrite collectById_snoc, fmap_app.
  rewrite decide_False by (apply Hev, elem_of_app; right; by left).
  rewrite decide_False by apply not_elem_of_empty.
  rewrite IH; [|done|intros r' Hr'; apply Hev, elem_of_app; by left].
  apply mapSet_fresh. rewrite <- list_fmap_compose.
  intros Hin. apply (Hfresh _ Hin). by left.
Qed.

Lemma toSorted_of_sorted {A} (cmp : A → A → Z) l :
  StronglySorted (λ a b, cmp a b <= 0) l → Js.toSorted cmp l = l.
Proof.
  induction 1 as [|x l Hl IH Hx]; [done|].
  simpl. rewrite IH. destruct l as [|y l]; [done|].
  simpl. apply Forall_inv in Hx.
  by destruct (Z.leb_spec (cmp x y) 0); [|lia].
Qed.

(** A list with no marker, distinct ids and ascending (date, messageId) is
    its own canonical view. *)
Lemma deduplicateMessages_fixpoint records :
  (∀ r, r ∈ records → event r ≠ deleted) →
  NoDup (messageId <$> records) →
  StronglySorted dateIdLe records →
  deduplicateMessages records = records.
Proof.
  intros Hev Hnd Hsorted. unfold deduplicateMessages.
  rewrite collectDeleted_no_marker, collectById_distinct by done.
  unfold Js.mapValues. rewrite <- list_fmap_compose.
  replace (snd ∘ (λ r, (messageId r, r)) <$> records) with records
    by (by rewrite list_fmap_id).
  apply toSorted_of_sorted.
  eapply StronglySorted_impl; [|exact Hsorted].
  intros a b. by rewrite byDateThenId_le.
Qed.

Lemma deduplicateMessages_no_marker records v :
  v ∈ deduplicateMessages records → event v ≠ deleted.
Proof. by intros (_ & _ & _ & ? & _)%deduplicateMessages_elem_of. Qed.

(** A part of a canonical view, in its order, is its own canonical view. *)
Lemma deduplicateMessages_sublist records part :
  part `sublist_of` deduplicateMessages records →
  deduplicateMessages part = part.
Proof.
  intros Hsub. apply deduplicateMessages_fixpoint.
  - intros r Hr. eapply deduplicateMessages_no_marker, sublist_subseteq; done.
  - eapply sublist_NoDup; [apply deduplicateMessages_NoDup|].
    by apply fmap_sublist.
  - eapply StronglySorted_sublist; [exact Hsub|apply deduplicateMessages_sorted].
Qed.

(** X1: compacting a canonical view gives it back. *)
Theorem deduplicateMessages_idempotent records :
  deduplicateMessages (deduplicateMessages records) = deduplicateMessages records.
Proof. by apply (deduplicateMessages_sublist records). Qed.

(** ** Reading and appending *)

(** X2: a whole line that is blank or does not parse costs only itself: the
    records before it and after it are read as if it were not there. *)
Theorem readJsonl_skips_line fs p a bad b :
  terminated a = true →
  Js.split Js.LF bad = [bad] →
  Js.truthy (Js.trim bad) = false ∨ JSON_parse_message bad = None →
  readJsonl (Fs.writeFileSync fs p (a +:+ bad +:+ newline +:+ b)) p
  = readJsonl (Fs.writeFileSync fs p a) p
    ++ readJsonl (Fs.writeFileSync fs p b) p.
Proof.
  intros Ha Hline Hbad.
  unfold readJsonl, Fs.readFileSync, Fs.writeFileSync. cbn [Fs.files].
  rewrite !lookup_insert_eq.
  assert (parseLines [bad] = []) as Hskip.
  { unfold parseLines. rewrite filter_cons.
    destruct Hbad as [Hblank|Hparse].
    - rewrite Hblank. by destruct (decide (Is_true false)).
    - rewrite filter_nil. case_decide; [|done]. simpl. by rewrite Hparse. }
  rewrite newline_app.
  apply terminated_spec in Ha as [->|[r ->]].
  - rewrite string_app_nil_l, split_app, Hline, parseLines_app, Hskip.
    change (Js.split Js.LF EmptyString) with [EmptyString].
    by rewrite parseLines_blank.
  - rewrite string_app_assoc, newline_app, !split_app, Hline, split_terminated.
    by rewrite !parseLines_app, Hskip, parseLines_blank, app_nil_r.
Qed.

(** X3: a record whose id an earlier deletion marker names does not come
    back: appending it (a late edit, a reused id) leaves the canonical view
    as it was. *)
Theorem append_deleted_id_ignored fs baseDir chatId m :
  logOk fs (logPath baseDir chatId) → lineOk m →
  event m ≠ deleted →
  messageId m ∈ collectDeleted (readJsonl fs (logPath baseDir chatId)) →
  canonical (appendBusinessMessage fs baseDir chatId m) baseDir chatId
  = canonical fs baseDir chatId.
Proof.
  intros Hok Hm Hev Hdel. unfold canonical.
  rewrite appendBusinessMessage_read by done.
  unfold deduplicateMessages.
  rewrite collectDeleted_snoc, collectById_snoc by done.
  rewrite decide_False by done. by rewrite decide_True.
Qed.

(** X4: appending a record of an id that no marker names puts it in the
    canonical view in place of the earlier record of that id, and leaves
    the records of the other ids. *)
Theorem append_replaces_version fs baseDir chatId m :
  logOk fs (logPath baseDir chatId) → lineOk m →
  event m ≠ deleted →
  messageId m ∉ collectDeleted (readJsonl fs (logPath baseDir chatId)) →
  ∀ v, v ∈ canonical (appendBusinessMessage fs baseDir chatId m) baseDir chatId
       ↔ v = m ∨ (v ∈ canonical fs baseDir chatId ∧ messageId v ≠ messageId m).
Proof.
  intros Hok Hm Hev Hlive v. unfold canonical.
  rewrite appendBusinessMessage_read by done.
  set (raw := readJsonl fs (logPath baseDir chatId)) in *.
  rewrite !deduplicateMessages_elem_of, collectDeleted_snoc by done. split.
  - intros (l1 & l2 & Heq & Hv & HD & Hl2).
    destruct l2 as [|x l2 _] using rev_ind.
    + apply app_inj_tail in Heq as [_ ->]. by left.
    + rewrite app_comm_cons, app_assoc in Heq.
      apply app_inj_tail in Heq as [-> ->].
      apply Forall_app in Hl2 as [Hl2 Hx]. apply Forall_inv in Hx.
      right. split; [|by intros ?; apply Hx].
      exists l1, l2. by split_and!.
  - intros [->|[(l1 & l2 & Heq & Hv & HD & Hl2) Hne]].
    + exists raw, []. by split_and!.
    + exists l1, (l2 ++ [m]). split_and!; try done.
      * by rewrite Heq, <- app_assoc, <- app_comm_cons.
      * apply Forall_app. split; [done|]. apply Forall_singleton. by intros _ ?.
Qed.

(** ** More on pruning *)

Lemma readFileSync_write fs p data :
  Fs.readFileSync (Fs.writeFileSync fs p data) p = Some data.
Proof. unfold Fs.readFileSync, Fs.writeFileSync. cbn [Fs.files]. apply lookup_insert_eq. Qed.

Lemma readFileSync_write_ne fs p q data :
  p ≠ q → Fs.readFileSync (Fs.writeFileSync fs p data) q = Fs.readFileSync fs q.
Proof.
  intros Hne. unfold Fs.readFileSync, Fs.writeFileSync. cbn [Fs.files].
  by apply lookup_insert_ne.
Qed.

Lemma readFileSync_append_ne fs p q data :
  p ≠ q → Fs.readFileSync (Fs.appendFileSync fs p data) q = Fs.readFileSync fs q.
Proof.
  intros Hne. unfold Fs.readFileSync, Fs.appendFileSync. cbn [Fs.files].
  by apply lookup_insert_ne.
Qed.

Lemma slice_sublist {A} (start : Z) (l : list A) : Js.slice start l `sublist_of` l.
Proof. unfold Js.slice. apply sublist_drop. Qed.

Lemma retained_sublist raw opts now :
  retained raw opts now `sublist_of` deduplicateMessages raw.
Proof.
  unfold retained. cbv zeta.
  repeat case_decide;
    repeat (first [ done
                  | apply sublist_filter
                  | etrans; [apply slice_sublist|] ]).
Qed.

Lemma retained_recent raw opts now r :
  default 0 (maxAgeDays opts) > 0 →
  r ∈ retained raw opts now →
  date r >= now `div` 1000 - default 0 (maxAgeDays opts) * 86400.
Proof.
  intros Hage. unfold retained. cbv zeta. rewrite (decide_True (P := _ > 0)) by done.
  intros Hr.
  assert (r ∈ filter
                (λ m, date m >= now `div` 1000 - default 0 (maxAgeDays opts) * 86400)
                (deduplicateMessages raw)) as Hin.
  { case_decide; [|done]. by eapply sublist_subseteq; [apply slice_sublist|]. }
  by apply list_elem_of_filter in Hin as [? _].
Qed.

(** The shape of a prune: nothing, or the retained messages written to the
    log and their count to the metadata. *)
Lemma prune_unfold fs baseDir chatId opts now :
  let raw := readJsonl fs (logPath baseDir chatId) in
  let messages := retained raw opts now in
  maybePruneChatMessages fs baseDir chatId opts now = fs
  ∨ ((length messages < length raw)%nat
     ∧ maybePruneChatMessages fs baseDir chatId opts now
       = syncMessageCount
           (Fs.writeFileSync fs (logPath baseDir chatId)
              (Js.join newline (JSON_stringify_message <$> messages) +:+ newline))
           baseDir chatId (Z.of_nat (length messages))).
Proof.
  cbv zeta. unfold maybePruneChatMessages, retained.
  fold (logPath baseDir chatId). cbv zeta.
  repeat (case_decide; [by left|]). right. split; [lia|done].
Qed.

Lemma prune_read fs baseDir chatId opts now :
  let raw := readJsonl fs (logPath baseDir chatId) in
  Forall lineOk raw →
  maybePruneChatMessages fs baseDir chatId opts now = fs
  ∨ ((length (retained raw opts now) < length raw)%nat
     ∧ maybePruneChatMessages fs baseDir chatId opts now
       = syncMessageCount
           (Fs.writeFileSync fs (logPath baseDir chatId)
              (Js.join newline (JSON_stringify_message <$> retained raw opts now)
               +:+ newline))
           baseDir chatId (Z.of_nat (length (retained raw opts now)))
     ∧ Fs.journal (maybePruneChatMessages fs baseDir chatId opts now)
       ≠ Fs.journal fs
     ∧ readJsonl (maybePruneChatMessages fs baseDir chatId opts now)
         (logPath baseDir chatId)
       = retained raw opts now).
Proof.
  cbv zeta. intros Hok.
  destruct (prune_unfold fs baseDir chatId opts now) as [|[Hlt Hfs]]; [by left|].
  right. split; [done|]. split; [done|]. rewrite Hfs. split.
  - destruct (syncMessageCount_journal
                (Fs.writeFileSync fs (logPath baseDir chatId)
                   (Js.join newline
                      (JSON_stringify_message
                         <$> retained (readJsonl fs (logPath baseDir chatId)) opts now)
                    +:+ newline))
                baseDir chatId
                (Z.of_nat
                   (length (retained (readJsonl fs (logPath baseDir chatId)) opts now))))
      as [written ->].
    cbn [Fs.writeFileSync Fs.journal]. intros Heq.
    apply (f_equal length) in Heq. rewrite length_app in Heq. simpl in Heq. lia.
  - unfold readJsonl at 1. rewrite syncMessageCount_log.
    unfold Fs.readFileSync, Fs.writeFileSync. cbn [Fs.files].
    rewrite lookup_insert_eq. apply parseLines_join.
    apply Forall_forall. intros m Hm. rewrite Forall_forall in Hok. apply Hok.
    apply deduplicateMessages_subseteq.
    by eapply sublist_subseteq; [apply retained_sublist|].
Qed.

(** X5: with a cap [n > 0] and no age limit, the canonical view after a
    prune is the last [n] messages of the canonical view before it; in
    particular a prune loses no current message when there are at most
    [n]. *)
Theorem prune_canonical fs baseDir chatId n age now :
  let opts := {| maxMessages := Some n; maxAgeDays := age |} in
  let view := canonical fs baseDir chatId in
  0 < n → default 0 age <= 0 →
  Forall lineOk (readJsonl fs (logPath baseDir chatId)) →
  canonical (maybePruneChatMessages fs baseDir chatId opts now) baseDir chatId
  = drop (length view - Z.to_nat n) view.
Proof.
  cbv zeta. intros Hn Hage Hok. unfold canonical.
  destruct (decide (Z.of_nat (length (readJsonl fs (logPath baseDir chatId))) <= n))
    as [Hsmall|Hbig].
  - rewrite prune_small by auto.
    pose proof (deduplicateMessages_length (readJsonl fs (logPath baseDir chatId))).
    replace (length (deduplicateMessages (readJsonl fs (logPath baseDir chatId)))
             - Z.to_nat n)%nat with 0%nat by lia.
    done.
  - destruct (prune_rewrites fs baseDir chatId n age now) as [-> _];
      [done|done|done|lia|].
    apply (deduplicateMessages_sublist (readJsonl fs (logPath baseDir chatId))).
    apply sublist_drop.
Qed.

(** X6: with an age limit set, no record older than the limit is left in
    the log after a prune, whether the log was rewritten or not. *)
Theorem prune_leaves_no_expired fs baseDir chatId opts now r :
  default 0 (maxAgeDays opts) > 0 →
  Forall lineOk (readJsonl fs (logPath baseDir chatId)) →
  r ∈ readJsonl (maybePruneChatMessages fs baseDir chatId opts now)
        (logPath baseDir chatId) →
  date r >= now `div` 1000 - default 0 (maxAgeDays opts) * 86400.
Proof.
  intros Hage Hok.
  destruct (prune_read fs baseDir chatId opts now Hok) as [Hsame|(_ & _ & _ & ->)];
    [|by apply retained_recent].
  rewrite Hsame. intros Hr.
  apply (retained_recent (readJsonl fs (logPath baseDir chatId)) opts now); [done|].
  assert (retained (readJsonl fs (logPath baseDir chatId)) opts now
          ≡ₚ readJsonl fs (logPath baseDir chatId)) as Hperm; [|by rewrite Hperm].
  apply submseteq_length_Permutation.
  - apply NoDup_submseteq.
    + eapply sublist_NoDup; [|apply retained_sublist].
      eapply NoDup_fmap_1, deduplicateMessages_NoDup.
    + intros x Hx. apply deduplicateMessages_subseteq.
      by eapply sublist_subseteq; [apply retained_sublist|].
  - revert Hsame Hr. unfold maybePruneChatMessages, retained.
    fold (logPath baseDir chatId). cbv zeta.
    rewrite decide_False by lia.
    destruct (readJsonl fs (logPath baseDir chatId)) as [|r0 raw] eqn:Hraw;
      [by intros _ ?%elem_of_nil|].
    rewrite decide_False by done.
    rewrite decide_False by lia.
    case_decide as Hlen; [done|].
    intros Hsame _. exfalso.
    apply (f_equal Fs.journal) in Hsame. revert Hsame.
    match goal with
    | |- Fs.journal (syncMessageCount ?s _ _ ?c) = _ → _ =>
        destruct (syncMessageCount_journal s baseDir chatId c) as [written ->]
    end.
    cbn [Fs.writeFileSync Fs.journal]. intros Heq.
    apply (f_equal length) in Heq. rewrite length_app in Heq. simpl in Heq. lia.
Qed.

(** X7: a prune that rewrites the log sets the [messageCount] of the stored
    metadata to the number of records it leaves in the log; it creates no
    metadata where there is none. *)
Theorem prune_syncs_count fs baseDir chatId opts now :
  let fs' := maybePruneChatMessages fs baseDir chatId opts now in
  let count := Z.of_nat (length (readJsonl fs' (logPath baseDir chatId))) in
  (Fs.readFileSync fs (metaPath baseDir chatId) = None →
   Fs.readFileSync fs' (metaPath baseDir chatId) = None)
  ∧ (∀ metaRaw meta,
       Forall lineOk (readJsonl fs (logPath baseDir chatId)) →
       Fs.journal fs' ≠ Fs.journal fs →
       Fs.readFileSync fs (metaPath baseDir chatId) = Some metaRaw →
       JSON_parse_meta metaRaw = Some meta →
       JSON_parse_meta (JSON_stringify_meta (setMessageCount meta count))
       = Some (setMessageCount meta count) →
       existingChatMeta fs' baseDir chatId = setMessageCount meta count).
Proof.
  cbv zeta. split.
  - intros Hnone.
    destruct (prune_unfold fs baseDir chatId opts now) as [->|[_ ->]]; [done|].
    unfold syncMessageCount. fold (metaPath baseDir chatId).
    rewrite readFileSync_write_ne by (apply not_eq_sym, logPath_metaPath).
    rewrite Hnone.
    by rewrite readFileSync_write_ne by (apply not_eq_sym, logPath_metaPath).
  - intros metaRaw meta Hok Hwritten Hmeta Hparse.
    destruct (prune_read fs baseDir chatId opts now Hok)
      as [Hsame|(_ & Heq & _ & Hread)];
      [by rewrite Hsame in Hwritten|].
    rewrite Hread, Heq. clear Hread Hwritten Heq.
    intros Hround. unfold existingChatMeta, syncMessageCount.
    fold (metaPath baseDir chatId). cbv zeta.
    rewrite readFileSync_write_ne by (apply not_eq_sym, logPath_metaPath).
    rewrite Hmeta, Hparse.
    by rewrite readFileSync_write, Hround.
Qed.

(** ** Which files an operation touches *)

Lemma chatDir_inj baseDir c c' : chatDir baseDir c = chatDir baseDir c' → c = c'.
Proof.
  unfold chatDir, Fs.join. intros Heq%app_inv_head.
  injection Heq as Heq. by apply (inj pretty) in Heq.
Qed.

Lemma logPath_inj baseDir c c' : logPath baseDir c = logPath baseDir c' → c = c'.
Proof.
  unfold logPath, Fs.join. intros [Heq _]%app_inj_tail. by eapply chatDir_inj.
Qed.

Lemma metaPath_inj baseDir c c' : metaPath baseDir c = metaPath baseDir c' → c = c'.
Proof.
  unfold metaPath, Fs.join. intros [Heq _]%app_inj_tail. by eapply chatDir_inj.
Qed.

Lemma logPath_ne_metaPath baseDir c c' : logPath baseDir c ≠ metaPath baseDir c'.
Proof. unfold metaPath, logPath, Fs.join. by intros [_ ?]%app_inj_tail. Qed.

Lemma syncMessageCount_other fs baseDir chatId count p :
  p ≠ metaPath baseDir chatId →
  Fs.readFileSync (syncMessageCount fs baseDir chatId count) p = Fs.readFileSync fs p.
Proof.
  intros Hp. unfold syncMessageCount. fold (metaPath baseDir chatId).
  destruct (Fs.readFileSync fs (metaPath baseDir chatId)) as [metaRaw|]; [|done].
  destruct (JSON_parse_meta metaRaw) as [meta|]; [|done].
  by apply readFileSync_write_ne.
Qed.

Lemma appendBusinessMessage_other fs baseDir chatId m p :
  p ≠ logPath baseDir chatId →
  Fs.readFileSync (appendBusinessMessage fs baseDir chatId m) p = Fs.readFileSync fs p.
Proof. intros Hp. by apply readFileSync_append_ne. Qed.

Lemma updateChatMeta_other fs baseDir chatId partial p :
  p ≠ metaPath baseDir chatId →
  Fs.readFileSync (updateChatMeta fs baseDir chatId partial) p = Fs.readFileSync fs p.
Proof. intros Hp. by apply readFileSync_write_ne. Qed.

Lemma canonical_ext fs fs' baseDir chatId :
  Fs.readFileSync fs' (logPath baseDir chatId)
  = Fs.readFileSync fs (logPath baseDir chatId) →
  canonical fs' baseDir chatId = canonical fs baseDir chatId.
Proof. intros Heq. unfold canonical, readJsonl. by rewrite Heq. Qed.

Lemma existingChatMeta_ext fs fs' baseDir chatId :
  Fs.readFileSync fs' (metaPath baseDir chatId)
  = Fs.readFileSync fs (metaPath baseDir chatId) →
  existingChatMeta fs' baseDir chatId = existingChatMeta fs baseDir chatId.
Proof.
  intros Heq. unfold existingChatMeta. fold (metaPath baseDir chatId).
  cbv zeta. by rewrite Heq.
Qed.

(** X8: a prune writes to the log and the metadata of its chat and to no
    other file, whatever its limits. *)
Theorem prune_frame fs baseDir chatId opts now p :
  p ≠ logPath baseDir chatId → p ≠ metaPath baseDir chatId →
  Fs.readFileSync (maybePruneChatMessages fs baseDir chatId opts now) p
  = Fs.readFileSync fs p.
Proof.
  intros Hlog Hmeta.
  destruct (prune_unfold fs baseDir chatId opts now) as [->|[_ ->]]; [done|].
  rewrite syncMessageCount_other by done.
  by apply readFileSync_write_ne.
Qed.

(** X9: a new message in one chat leaves every other chat as it was: its
    canonical view and its metadata. *)
Theorem onBusinessMessage_other_chat cfg fs baseDir msg now later other :
  other ≠ chat_id (msg_chat msg) →
  let fs' := onBusinessMessage cfg fs baseDir (Some msg) now later in
  canonical fs' baseDir other = canonical fs baseDir other
  ∧ existingChatMeta fs' baseDir other = existingChatMeta fs baseDir other.
Proof.
  intros Hother. cbv zeta.
  assert (∀ p, p ≠ logPath baseDir (chat_id (msg_chat msg)) →
               p ≠ metaPath baseDir (chat_id (msg_chat msg)) →
               Fs.readFileSync
                 (onBusinessMessage cfg fs baseDir (Some msg) now later) p
               = Fs.readFileSync fs p) as Hframe.
  { intros p Hlog Hmeta. unfold onBusinessMessage.
    destruct (negb (resolveBusinessEnabled cfg)); [done|].
    destruct (business_connection_id msg) as [bc|]; [|done].
    destruct (negb (Js.truthy bc)); [done|]. cbv zeta.
    rewrite updateChatMeta_other by done.
    by apply appendBusinessMessage_other. }
  split.
  - apply canonical_ext, Hframe.
    + by intros ?%logPath_inj.
    + apply logPath_ne_metaPath.
  - apply existingChatMeta_ext, Hframe.
    + apply not_eq_sym, logPath_ne_metaPath.
    + by intros ?%metaPath_inj.
Qed.

(** X10: edits and deletions never write metadata: after either handler
    every chat's metadata file is what it was, so [messageCount] counts
    new messages only. *)
Theorem edits_and_deletions_keep_metadata cfg fs baseDir msg removed now chat :
  Fs.readFileSync (onEditedBusinessMessage cfg fs baseDir msg now)
    (metaPath baseDir chat)
  = Fs.readFileSync fs (metaPath baseDir chat)
  ∧ Fs.readFileSync (onDeletedBusinessMessages cfg fs baseDir removed now)
      (metaPath baseDir chat)
    = Fs.readFileSync fs (metaPath baseDir chat).
Proof.
  split.
  - unfold onEditedBusinessMessage.
    destruct (negb (resolveBusinessEnabled cfg)); [done|].
    destruct msg as [msg|]; [|done].
    destruct (business_connection_id msg) as [bc|]; [|done].
    destruct (negb (Js.truthy bc)); [done|]. cbv zeta.
    apply appendBusinessMessage_other, not_eq_sym, logPath_ne_metaPath.
  - unfold onDeletedBusinessMessages.
    destruct (negb (resolveBusinessEnabled cfg)); [done|].
    destruct removed as [removed|]; [|done]. cbv zeta.
    unfold appendDeletionMarker.
    apply appendBusinessMessage_other, not_eq_sym, logPath_ne_metaPath.
Qed.

Lemma onBusinessMessage_enabled cfg fs baseDir msg bc now later :
  businessEnabled cfg = Some true →
  business_connection_id msg = Some bc → Js.truthy bc = true →
  onBusinessMessage cfg fs baseDir (Some msg) now later
  = updateChatMeta
      (appendBusinessMessage fs baseDir (chat_id (msg_chat msg))
         (extractStoredMessage msg bc new now))
      baseDir (chat_id (msg_chat msg))
      {| p_chatId := None;
         p_firstName :=
           Some (Some (default EmptyString (chat_first_name (msg_chat msg))));
         p_lastName := Some (chat_last_name (msg_chat msg));
         p_username := Some (chat_username (msg_chat msg));
         p_lastMessageAt := Some (Some later);
         incrementCount := Some true |}.
Proof.
  intros Hcfg Hbc Htruthy. unfold onBusinessMessage, resolveBusinessEnabled.
  rewrite Hcfg, Hbc, Htruthy. by rewrite bool_decide_eq_true_2.
Qed.

(** X11: a new message, with business mode on and a connection id, is
    appended to its chat's log as a [new] record and counted once: the
    stored metadata gets the chat's names (an absent last name erases the
    stored one), the later clock reading and [messageCount + 1]. *)
Theorem onBusinessMessage_stores cfg fs baseDir msg bc now later :
  let chat := chat_id (msg_chat msg) in
  let stored := extractStoredMessage msg bc new now in
  let before := existingChatMeta fs baseDir chat in
  let updated :=
    updatedChatMeta before chat
      {| p_chatId := None;
         p_firstName :=
           Some (Some (default EmptyString (chat_first_name (msg_chat msg))));
         p_lastName := Some (chat_last_name (msg_chat msg));
         p_username := Some (chat_username (msg_chat msg));
         p_lastMessageAt := Some (Some later);
         incrementCount := Some true |} in
  let fs' := onBusinessMessage cfg fs baseDir (Some msg) now later in
  let after := existingChatMeta fs' baseDir chat in
  businessEnabled cfg = Some true →
  business_connection_id msg = Some bc → Js.truthy bc = true →
  logOk fs (logPath baseDir chat) → lineOk stored →
  JSON_parse_meta (JSON_stringify_meta updated) = Some updated →
  readJsonl fs' (logPath baseDir chat) = readJsonl fs (logPath baseDir chat) ++ [stored]
  ∧ messageCount after = messageCount before + 1
  ∧ lastMessageAt after = Some later
  ∧ firstName after = Some (default EmptyString (chat_first_name (msg_chat msg)))
  ∧ lastName after = chat_last_name (msg_chat msg)
  ∧ username after = chat_username (msg_chat msg)
  ∧ chatId after = chat.
Proof.
  cbv zeta. intros Hcfg Hbc Htruthy Hok Hline.
  rewrite (onBusinessMessage_enabled cfg fs baseDir msg bc now later) by done.
  set (chat := chat_id (msg_chat msg)) in *.
  set (stored := extractStoredMessage msg bc new now) in *.
  set (partial := {| p_chatId := None; p_firstName := _ |}) in *.
  set (fs1 := appendBusinessMessage fs baseDir chat stored) in *.
  intros Hround.
  split.
  { unfold readJsonl at 1.
    rewrite updateChatMeta_other by apply logPath_ne_metaPath.
    by apply appendBusinessMessage_read. }
  assert (existingChatMeta fs1 baseDir chat = existingChatMeta fs baseDir chat) as Hsame.
  { apply existingChatMeta_ext, appendBusinessMessage_other,
      not_eq_sym, logPath_ne_metaPath. }
  assert (existingChatMeta (updateChatMeta fs1 baseDir chat partial) baseDir chat
          = updatedChatMeta (existingChatMeta fs baseDir chat) chat partial) as ->.
  { unfold existingChatMeta at 1. fold (metaPath baseDir chat). cbv zeta.
    assert (Fs.readFileSync (updateChatMeta fs1 baseDir chat partial)
              (metaPath baseDir chat)
            = Some (JSON_stringify_meta
                      (updatedChatMeta (existingChatMeta fs1 baseDir chat)
                         chat partial))) as Hwritten
      by apply readFileSync_write.
    rewrite Hwritten, Hsame. by rewrite Hround. }
  done.
Qed.

(** ** More on search *)


(** X13: a search with a limit of zero or less returns nothing, whatever
    the chats hold. *)
Theorem search_nonpositive_limit fs baseDir query opts :
  default 20 (opts ≫= searchLimit) <= 0 →
  searchBusinessMessages fs baseDir query opts = [].
Proof.
  intros Hlim. unfold searchBusinessMessages. cbv zeta.
  destruct (searchChatIds fs baseDir opts) as [chatIds|]; [|done].
  rewrite searchChats_spec. simpl.
  assert (Z.to_nat (default 20 (opts ≫= searchLimit)) = 0%nat) as -> by lia.
  done.
Qed.

(** ** The chat listing *)

Lemma entryUnder_app dir name rest :
  Fs.entryUnder dir (dir ++ name :: rest) = Some name.
Proof.
  induction dir as [|x dir IH]; [done|]. simpl. by rewrite decide_True.
Qed.

Lemma readdirSync_entry fs dir name rest :
  is_Some (Fs.readFileSync fs (dir ++ name :: rest)) →
  ∃ entries, Fs.readdirSync fs dir = Some entries ∧ name ∈ entries.
Proof.
  intros [data Hdata]. unfold Fs.readdirSync, Fs.readFileSync in *.
  pose proof (entryUnder_app dir name rest) as Hentry.
  assert (name ∈ omap (Fs.entryUnder dir) (map_to_list (Fs.files fs)).*1) as Hin.
  { apply list_elem_of_omap. exists (dir ++ name :: rest). split; [|done].
    apply list_elem_of_fmap. exists (dir ++ name :: rest, data).
    split; [done|]. by apply elem_of_map_to_list. }
  destruct (omap (Fs.entryUnder dir) (map_to_list (Fs.files fs)).*1)
    as [|n names] eqn:Hnames; [by apply elem_of_nil in Hin|].
  eexists. split; [done|]. by apply elem_of_remove_dups.
Qed.

Lemma omap_length_le {A B} (f : A → option B) (l : list A) :
  (length (omap f l) ≤ length l)%nat.
Proof.
  induction l as [|x l IH]; [done|]. csimpl.
  destruct (f x); csimpl; lia.
Qed.

Lemma listBusinessChats_elem_of fs baseDir meta :
  meta ∈ listBusinessChats fs baseDir ↔
  ∃ entries entry,
    Fs.readdirSync fs (Fs.join baseDir [CHATS_DIR]) = Some entries
    ∧ entry ∈ entries
    ∧ entryMeta fs (Fs.join baseDir [CHATS_DIR]) entry = Some meta.
Proof.
  unfold listBusinessChats. cbv zeta.
  destruct (Fs.readdirSync fs (Fs.join baseDir [CHATS_DIR])) as [entries|].
  - rewrite toSorted_perm, list_elem_of_omap. split.
    + intros (entry & Hin & Hmeta). by exists entries, entry.
    + intros (? & entry & [= <-] & Hin & Hmeta). by exists entry.
  - split; [by intros ?%elem_of_nil|]. by intros (? & ? & ? & _).
Qed.

(** X14: the listing holds exactly the metadata that could be read: one
    for each entry of the chats directory whose [meta.json] is there and
    parses; entries without one are left out, and a missing chats
    directory gives the empty list. *)
Theorem listBusinessChats_members fs baseDir :
  (∀ meta, meta ∈ listBusinessChats fs baseDir ↔
     ∃ entries entry,
       Fs.readdirSync fs (Fs.join baseDir [CHATS_DIR]) = Some entries
       ∧ entry ∈ entries
       ∧ entryMeta fs (Fs.join baseDir [CHATS_DIR]) entry = Some meta)
  ∧ (Fs.readdirSync fs (Fs.join baseDir [CHATS_DIR]) = None →
     listBusinessChats fs baseDir = [])
  ∧ (∀ entries,
       Fs.readdirSync fs (Fs.join baseDir [CHATS_DIR]) = Some entries →
       (length (listBusinessChats fs baseDir) ≤ length entries)%nat).
Proof.
  split; [apply listBusinessChats_elem_of|].
  unfold listBusinessChats. cbv zeta. split.
  - by intros ->.
  - intros entries ->. rewrite toSorted_perm. apply omap_length_le.
Qed.

Section sorted_on.
Context {A : Type} (cmp : A → A → Z) (P : A → Prop).
Hypothesis cmp_total : ∀ a b, P a → P b → cmp a b <= 0 ∨ cmp b a <= 0.
Hypothesis cmp_trans :
  ∀ a b c, P a → P b → P c → cmp a b <= 0 → cmp b c <= 0 → cmp a c <= 0.

Lemma insertSorted_sorted_on x l :
  P x → Forall P l →
  StronglySorted (λ a b, cmp a b <= 0) l →
  StronglySorted (λ a b, cmp a b <= 0) (Js.insertSorted cmp x l).
Proof using cmp_total cmp_trans.
  intros Hx HP Hs. induction Hs as [|y l Hl IH Hy]; simpl.
  - repeat constructor.
  - apply Forall_cons in HP as [HPy HP].
    destruct (Z.leb_spec (cmp x y) 0) as [Hxy|Hxy].
    + constructor; [by constructor|].
      constructor; [done|].
      rewrite Forall_forall in *. intros z Hz.
      eapply (cmp_trans x y z); auto.
    + constructor; [by apply IH|].
      rewrite insertSorted_perm. constructor; [|done].
      destruct (cmp_total x y); [done|done|lia|done].
Qed.

Lemma toSorted_sorted_on l :
  Forall P l → StronglySorted (λ a b, cmp a b <= 0) (Js.toSorted cmp l).
Proof using cmp_total cmp_trans.
  induction 1 as [|x l Hx Hl IH]; simpl; [constructor|].
  apply insertSorted_sorted_on; [done| |done].
  by rewrite toSorted_perm.
Qed.

End sorted_on.

(** X15: when every metadata that is listed has a [lastMessageAt], the
    listing goes from the most recently active chat to the least. *)
Theorem listBusinessChats_sorted fs baseDir :
  (∀ meta, meta ∈ listBusinessChats fs baseDir → is_Some (lastMessageAt meta)) →
  StronglySorted
    (λ a b, ∀ x y, lastMessageAt a = Some x → lastMessageAt b = Some y → y <= x)
    (listBusinessChats fs baseDir).
Proof.
  unfold listBusinessChats. cbv zeta.
  destruct (Fs.readdirSync fs (Fs.join baseDir [CHATS_DIR])) as [entries|];
    [|constructor].
  intros Hall.
  eapply StronglySorted_impl;
    [|apply (toSorted_sorted_on byLastMessageAtDesc (λ m, is_Some (lastMessageAt m)))].
  - intros a b Hcmp x y Ha Hb. unfold byLastMessageAtDesc in Hcmp.
    rewrite Ha, Hb in Hcmp. lia.
  - intros a b [x Ha] [y Hb]. unfold byLastMessageAtDesc. rewrite Ha, Hb. lia.
  - intros a b c [x Ha] [y Hb] [z Hc]. unfold byLastMessageAtDesc.
    rewrite Ha, Hb, Hc. lia.
  - apply Forall_forall. intros m Hm. apply Hall. by rewrite toSorted_perm.
Qed.

Lemma metaPath_entry baseDir cid :
  Fs.join baseDir [CHATS_DIR] ++ [pretty cid; META_FILE] = metaPath baseDir cid.
Proof. unfold metaPath, chatDir, Fs.join. by rewrite <- !app_assoc. Qed.

(** X16: a chat whose metadata was just written is listed, with the
    metadata that was written. *)
Theorem updateChatMeta_listed fs baseDir cid partial :
  let updated := updatedChatMeta (existingChatMeta fs baseDir cid) cid partial in
  JSON_parse_meta (JSON_stringify_meta updated) = Some updated →
  updated ∈ listBusinessChats (updateChatMeta fs baseDir cid partial) baseDir.
Proof.
  cbv zeta. intros Hround.
  set (updated := updatedChatMeta (existingChatMeta fs baseDir cid) cid partial) in *.
  set (fs' := updateChatMeta fs baseDir cid partial).
  assert (Fs.readFileSync fs' (Fs.join baseDir [CHATS_DIR] ++ [pretty cid; META_FILE])
          = Some (JSON_stringify_meta updated)) as Hread.
  { rewrite metaPath_entry. apply readFileSync_write. }
  destruct (readdirSync_entry fs' (Fs.join baseDir [CHATS_DIR]) (pretty cid) [META_FILE])
    as (entries & Hdir & Hin); [by rewrite Hread|].
  apply listBusinessChats_elem_of. exists entries, (pretty cid).
  split; [done|]. split; [done|].
  unfold entryMeta. cbv zeta. unfold Fs.join at 1. by rewrite Hread.
Qed.

(** ** Saving a connection *)

Lemma objectGet_elem_of {A} k (v : A) o :
  NoDup o.*1 → (k, v) ∈ o ↔ Js.objectGet k o = Some v.
Proof.
  induction o as [|[k0 v0] o IH]; simpl; intros Hnd.
  - split; [by intros ?%elem_of_nil|done].
  - apply NoDup_cons in Hnd as [Hk0 Hnd].
    destruct (decide (k = k0)) as [->|Hk].
    + split.
      * intros [Heq|Hin]%elem_of_cons; [congruence|].
        destruct Hk0. apply list_elem_of_fmap. by exists (k0, v).
      * intros [= ->]. by left.
    + rewrite <- IH by done. split.
      * intros [Heq|Hin]%elem_of_cons; [congruence|done].
      * by right.
Qed.

Lemma objectGet_None {A} k (o : list (string * A)) :
  k ∉ o.*1 → Js.objectGet k o = None.
Proof.
  induction o as [|[k0 v0] o IH]; [done|].
  rewrite fmap_cons, not_elem_of_cons. cbn [fst]. intros [Hne Hk].
  simpl. rewrite decide_False by done. by apply IH.
Qed.

Lemma objectReplace_get {A} k k' (v : A) o :
  Js.objectGet k' (Js.objectReplace k v o) =
  if decide (k' = k) then (λ _, v) <$> Js.objectGet k o else Js.objectGet k' o.
Proof.
  induction o as [|[k0 v0] o IH].
  - simpl. by case_decide.
  - cbn [Js.objectReplace Js.objectGet].
    destruct (decide (k = k0)) as [->|Hk]; cbn [Js.objectGet].
    + destruct (decide (k' = k0)) as [->|]; [done|done].
    + rewrite IH. destruct (decide (k' = k0)) as [->|].
      * by rewrite decide_False by done.
      * done.
Qed.

Lemma objectReplace_keys {A} k (v : A) o : (Js.objectReplace k v o).*1 = o.*1.
Proof.
  induction o as [|[k0 v0] o IH]; [done|]. cbn [Js.objectReplace].
  destruct (decide (k = k0)) as [->|]; [done|]. rewrite !fmap_cons. by rewrite IH.
Qed.

Lemma objectReplace_values {A} k (v : A) o c :
  c ∈ (Js.objectReplace k v o).*2 → c = v ∨ c ∈ o.*2.
Proof.
  induction o as [|[k0 v0] o IH]; [by intros ?%elem_of_nil|].
  cbn [Js.objectReplace].
  destruct (decide (k = k0)) as [->|]; rewrite !fmap_cons; cbn [snd].
  - intros [->|?]%elem_of_cons; [by left|]. right. by right.
  - intros [->|?]%elem_of_cons; [right; by left|].
    destruct IH as [?|?]; [done|by left|]. right. by right.
Qed.

Lemma objectInsertIndex_perm {A} n k (v : A) o :
  Js.objectInsertIndex n k v o ≡ₚ (k, v) :: o.
Proof.
  induction o as [|[k0 v0] o IH]; [done|]. cbn [Js.objectInsertIndex].
  destruct (Js.arrayIndex k0) as [n0|]; [|done].
  destruct (n0 <? n)%N; [|done].
  rewrite IH. apply Permutation_swap.
Qed.

Lemma objectInsertIndex_get {A} n k k' (v : A) o :
  k ∉ o.*1 →
  Js.objectGet k' (Js.objectInsertIndex n k v o) =
  if decide (k' = k) then Some v else Js.objectGet k' o.
Proof.
  induction o as [|[k0 v0] o IH].
  - intros _. simpl. by case_decide.
  - rewrite fmap_cons, not_elem_of_cons. cbn [fst]. intros [Hne Hk].
    cbn [Js.objectInsertIndex].
    destruct (Js.arrayIndex k0) as [n0|]; [destruct (n0 <? n)%N|];
      cbn [Js.objectGet]; try (by case_decide).
    rewrite IH by done.
    destruct (decide (k' = k0)) as [->|]; [by rewrite decide_False|done].
Qed.

Lemma objectGet_snoc {A} k k' (v : A) o :
  k ∉ o.*1 →
  Js.objectGet k' (o ++ [(k, v)]) =
  if decide (k' = k) then Some v else Js.objectGet k' o.
Proof.
  induction o as [|[k0 v0] o IH].
  - intros _. simpl. by case_decide.
  - rewrite fmap_cons, not_elem_of_cons. cbn [fst]. intros [Hne Hk].
    rewrite <- app_comm_cons. cbn [Js.objectGet]. rewrite IH by done.
    destruct (decide (k' = k0)) as [->|]; [by rewrite decide_False|done].
Qed.

(** An assignment to [__proto__], on an object with no own property of
    that name, leaves the properties as they are. *)
Lemma objectSet_proto {A} (v : A) o :
  Js.PROTO ∉ o.*1 → Js.objectSet Js.PROTO v o = o.
Proof.
  intros Hout. unfold Js.objectSet.
  rewrite decide_False by done. by rewrite decide_True.
Qed.

(** Reading another property after an assignment. *)
Lemma objectSet_get_ne {A} k k' (v : A) o :
  k' ≠ k → Js.objectGet k' (Js.objectSet k v o) = Js.objectGet k' o.
Proof.
  intros Hne. unfold Js.objectSet. destruct (decide (k ∈ o.*1)) as [Hin|Hin].
  - rewrite objectReplace_get. by rewrite decide_False.
  - destruct (decide (k = Js.PROTO)); [done|]. destruct (Js.arrayIndex k).
    + rewrite objectInsertIndex_get by done. by rewrite decide_False.
    + rewrite objectGet_snoc by done. by rewrite decide_False.
Qed.

(** Reading the property that was assigned. *)
Lemma objectSet_get_eq {A} k (v : A) o :
  k ≠ Js.PROTO ∨ k ∈ o.*1 → Js.objectGet k (Js.objectSet k v o) = Some v.
Proof.
  intros Hk. unfold Js.objectSet. destruct (decide (k ∈ o.*1)) as [Hin|Hin].
  - rewrite objectReplace_get, decide_True by done.
    apply list_elem_of_fmap in Hin as ([k0 v0] & -> & Hin). simpl.
    clear Hk. induction o as [|[k1 v1] o IH]; [by apply elem_of_nil in Hin|].
    simpl. destruct (decide (k0 = k1)); [done|].
    apply elem_of_cons in Hin as [[= ? ?]|?]; [done|by apply IH].
  - destruct Hk as [Hk|Hk]; [|done]. rewrite decide_False by done.
    destruct (Js.arrayIndex k).
    + rewrite objectInsertIndex_get by done. by rewrite decide_True.
    + rewrite objectGet_snoc by done. by rewrite decide_True.
Qed.

Lemma objectSet_keys {A} k (v : A) o :
  (Js.objectSet k v o).*1
  ≡ₚ if decide (k ∈ o.*1 ∨ k = Js.PROTO) then o.*1 else k :: o.*1.
Proof.
  forget_codec.
  unfold Js.objectSet. destruct (decide (k ∈ o.*1)) as [Hin|Hin].
  - rewrite decide_True by auto. by rewrite objectReplace_keys.
  - destruct (decide (k = Js.PROTO)) as [Hk|Hk].
    + by rewrite decide_True by auto.
    + rewrite decide_False by tauto. destruct (Js.arrayIndex k).
      * by rewrite objectInsertIndex_perm.
      * rewrite fmap_app. simpl. by rewrite Permutation_app_comm.
Qed.

Lemma objectSet_NoDup {A} k (v : A) o :
  NoDup o.*1 → NoDup (Js.objectSet k v o).*1.
Proof.
  forget_codec.
  intros Hnd. rewrite objectSet_keys. case_decide as Hk; [done|].
  constructor; [tauto|done].
Qed.

Lemma objectSet_values {A} k (v : A) o c :
  c ∈ (Js.objectSet k v o).*2 → c = v ∨ c ∈ o.*2.
Proof.
  unfold Js.objectSet. destruct (decide (k ∈ o.*1)) as [Hin|Hin].
  - apply objectReplace_values.
  - destruct (decide (k = Js.PROTO)); [auto|]. destruct (Js.arrayIndex k).
    + rewrite objectInsertIndex_perm, fmap_cons. cbn [snd].
      intros [->|?]%elem_of_cons; auto.
    + rewrite fmap_app. intros [?|Hc]%elem_of_app; [auto|].
      apply list_elem_of_singleton in Hc as ->. by left.
Qed.

Lemma objectSet_value {A} k (v : A) o :
  k ≠ Js.PROTO ∨ k ∈ o.*1 → v ∈ (Js.objectSet k v o).*2.
Proof.
  intros Hk. unfold Js.objectSet. destruct (decide (k ∈ o.*1)) as [Hin|Hin].
  - clear Hk. induction o as [|[k0 v0] o IH]; [by apply elem_of_nil in Hin|].
    simpl. destruct (decide (k = k0)) as [->|Hk]; simpl; [by left|].
    right. apply IH. simpl in Hin. by apply elem_of_cons in Hin as [?|?].
  - destruct Hk as [Hk|Hk]; [|done]. rewrite decide_False by done.
    destruct (Js.arrayIndex k).
    + rewrite objectInsertIndex_perm. by left.
    + rewrite fmap_app. apply elem_of_app. right. by left.
Qed.

(** The store that [saveBusinessConnection] writes. *)
Lemma saveBusinessConnection_written fs baseDir conn :
  Fs.readFileSync (saveBusinessConnection fs baseDir conn) (connectionsPath baseDir)
  = Some (JSON_stringify_store
            {| version := 1;
               connections :=
                 Js.objectSet (Connection.id conn) conn
                   (connections (loadBusinessConnections fs baseDir)) |}).
Proof.
  unfold saveBusinessConnection, ensureDir, Fs.mkdirSync. cbv zeta.
  rewrite readFileSync_write. do 3 f_equal.
  unfold loadBusinessConnections. cbv zeta.
  destruct (Fs.readFileSync fs (connectionsPath baseDir)) as [raw|]; [|done].
  destruct (JSON_parse_store raw) as [[|v [conns|]]|]; try done;
    by case_decide.
Qed.

Lemma saveBusinessConnection_load fs baseDir conn :
  let saved :=
    {| version := 1;
       connections :=
         Js.objectSet (Connection.id conn) conn
           (connections (loadBusinessConnections fs baseDir)) |} in
  JSON_parse_store (JSON_stringify_store saved)
  = Some (ParsedValue (Some 1) (Some (connections saved))) →
  loadBusinessConnections (saveBusinessConnection fs baseDir conn) baseDir = saved.
Proof.
  cbv zeta. intros Hround. unfold loadBusinessConnections at 1. cbv zeta.
  rewrite saveBusinessConnection_written, Hround. by rewrite decide_True.
Qed.

(** X17: saving a connection and loading the store back: the version is
    1, every other id holds what it held and the keys stay distinct; the
    connection is found under its id when that id is not [__proto__], an
    id that the assignment does not turn into a property: saved under
    [__proto__] in a store with no property of that name, the connection is
    not stored and the store loads as it was. *)
Theorem save_then_load fs baseDir conn :
  let store := loadBusinessConnections fs baseDir in
  let saved :=
    {| version := 1;
       connections := Js.objectSet (Connection.id conn) conn (connections store) |} in
  let loaded := loadBusinessConnections (saveBusinessConnection fs baseDir conn) baseDir in
  JSON_parse_store (JSON_stringify_store saved)
  = Some (ParsedValue (Some 1) (Some (connections saved))) →
  version loaded = 1
  ∧ (Connection.id conn ≠ Js.PROTO →
     Js.objectGet (Connection.id conn) (connections loaded) = Some conn)
  ∧ (Connection.id conn = Js.PROTO → Js.PROTO ∉ (connections store).*1 →
     connections loaded = connections store)
  ∧ (∀ k, k ≠ Connection.id conn →
          Js.objectGet k (connections loaded) = Js.objectGet k (connections store))
  ∧ (NoDup (connections store).*1 → NoDup (connections loaded).*1).
Proof.
  cbv zeta. intros Hround.
  rewrite (saveBusinessConnection_load fs baseDir conn Hround). cbn [version connections].
  split_and!.
  - done.
  - intros Hid. apply objectSet_get_eq. by left.
  - intros -> Hout. by apply objectSet_proto.
  - intros k Hk. by apply objectSet_get_ne.
  - apply objectSet_NoDup.
Qed.

(** X18: when the connections document is missing or unreadable, so that
    it loads as the empty store, a save writes a store of the saved
    connection alone, and of no connection at all when its id is
    [__proto__]: what the old document held is overwritten. *)
Theorem save_over_unreadable fs baseDir conn :
  loadBusinessConnections fs baseDir = emptyStore →
  Fs.readFileSync (saveBusinessConnection fs baseDir conn) (connectionsPath baseDir)
  = Some (JSON_stringify_store
            {| version := 1;
               connections :=
                 if decide (Connection.id conn = Js.PROTO) then []
                 else [(Connection.id conn, conn)] |}).
Proof.
  intros Hempty. rewrite saveBusinessConnection_written, Hempty.
  do 3 f_equal. unfold emptyStore, Js.objectSet. cbn [connections fmap list_fmap].
  rewrite decide_False by apply not_elem_of_nil.
  destruct (decide (Connection.id conn = Js.PROTO)); [done|].
  by destruct (Js.arrayIndex (Connection.id conn)).
Qed.

(** X19: when the operator connects the bot under an id other than
    [__proto__], and no enabled connection of the store was updated at or
    after the clock reading of the event, the connection of the event is
    the active one. *)
Theorem connect_becomes_active fs baseDir conn now :
  let store := loadBusinessConnections fs baseDir in
  let stored := storedConnection conn now in
  let saved :=
    {| version := 1;
       connections := Js.objectSet (connection_id conn) stored (connections store) |} in
  connection_id conn ≠ Js.PROTO →
  is_enabled conn = true →
  (∀ c, c ∈ (connections store).*2 → Connection.isEnabled c = true →
        Connection.updatedAt c < now) →
  JSON_parse_store (JSON_stringify_store saved)
  = Some (ParsedValue (Some 1) (Some (connections saved))) →
  getActiveBusinessConnectionId
    (onBusinessConnection fs baseDir (Some conn) now) baseDir
  = Some (connection_id conn).
Proof.
  cbv zeta. intros Hid Hen Hold Hround.
  unfold getActiveBusinessConnectionId, onBusinessConnection. cbv zeta.
  rewrite (saveBusinessConnection_load fs baseDir (storedConnection conn now) Hround).
  cbn [connections].
  assert (storedConnection conn now
          ∈ (Js.objectSet (Connection.id (storedConnection conn now))
               (storedConnection conn now)
               (connections (loadBusinessConnections fs baseDir))).*2) as Hstored
    by (apply objectSet_value; by left).
  set (conns := (Js.objectSet _ _ _).*2) in *.
  destruct (activeStep_fold conns None) as [Hnone Hsome].
  destruct (fold_left activeStep conns None) as [c|] eqn:Hfold.
  - destruct (Hsome c eq_refl) as ([?|[Hc Hcen]] & _ & Hmax); [done|].
    apply objectSet_values in Hc as [->|Hc]; [done|].
    specialize (Hold c Hc Hcen).
    specialize (Hmax (storedConnection conn now) Hstored Hen).
    simpl in Hmax. lia.
  - destruct Hnone as [Hnone _]. destruct (Hnone eq_refl) as [_ Hall].
    specialize (Hall (storedConnection conn now) Hstored).
    simpl in Hall. congruence.
Qed.

(** X20: when the operator disconnects the bot, the connection of the
    event is no longer the active one (in a store whose records sit under
    their own ids). *)
Theorem disconnect_not_active fs baseDir conn now :
  let store := loadBusinessConnections fs baseDir in
  let stored := storedConnection conn now in
  let saved :=
    {| version := 1;
       connections := Js.objectSet (connection_id conn) stored (connections store) |} in
  is_enabled conn = false →
  NoDup (connections store).*1 →
  Forall (λ kv, kv.1 = Connection.id kv.2) (connections store) →
  JSON_parse_store (JSON_stringify_store saved)
  = Some (ParsedValue (Some 1) (Some (connections saved))) →
  getActiveBusinessConnectionId
    (onBusinessConnection fs baseDir (Some conn) now) baseDir
  ≠ Some (connection_id conn).
Proof.
  cbv zeta. intros Hdis Hnd Hkeys Hround.
  unfold getActiveBusinessConnectionId, onBusinessConnection. cbv zeta.
  rewrite (saveBusinessConnection_load fs baseDir (storedConnection conn now) Hround).
  cbn [connections].
  set (store := connections (loadBusinessConnections fs baseDir)) in *.
  set (saved := Js.objectSet _ _ _).
  destruct (activeStep_fold saved.*2 None) as [_ Hsome].
  intros (c & Hc & Hid)%fmap_Some.
  destruct (Hsome c Hc) as ([?|[Hin Hen]] & _); [done|].
  apply list_elem_of_fmap in Hin as ([k c'] & -> & Hin). simpl in *.
  apply objectGet_elem_of in Hin; [|by apply objectSet_NoDup].
  rewrite Forall_forall in Hkeys.
  destruct (decide (k = connection_id conn)) as [->|Hk].
  - assert (connection_id conn ≠ Js.PROTO ∨ connection_id conn ∈ store.*1
            → False) as Hout.
    { intros Hset. subst saved.
      change (connection_id conn)
        with (Connection.id (storedConnection conn now)) in Hin at 1 2.
      rewrite objectSet_get_eq in Hin by done.
      injection Hin as <-. simpl in Hen. congruence. }
    destruct (decide (connection_id conn = Js.PROTO)) as [Hproto|Hproto];
      [|by apply Hout; left].
    assert (Js.PROTO ∉ store.*1) as Hown
      by (intros Hown; apply Hout; right; by rewrite Hproto).
    subst saved.
    change (Connection.id (storedConnection conn now))
      with (connection_id conn) in Hin.
    rewrite Hproto, objectSet_proto in Hin by done.
    apply Hown, list_elem_of_fmap. exists (Js.PROTO, c'). split; [done|].
    by apply objectGet_elem_of.
  - subst saved. rewrite objectSet_get_ne in Hin by done.
    apply objectGet_elem_of in Hin; [|done].
    specialize (Hkeys _ Hin). simpl in Hkeys. congruence.
Qed.

End Store.

(** ** The statements at sample inputs *)

(** A new record and its edit, a message that a marker names, and a later
    message: the edit and the later message are kept, the named one is
    not. *)
Lemma canonical_after_appends_witness :
  let records :=
    [Sample.message 1 new 100 None;
     Sample.message 1 edited 101 (Some "v2");
     Sample.message 2 new 102 (Some "Hello ABC");
     Sample.marker [2] 300000;
     Sample.message 4 new 104 (Some "xyz")] in
  let view :=
    canonical Sample.parse
      (appendAll Sample.stringify Sample.emptyFs Sample.base 42 records)
      Sample.base 42 in
  Fs.readFileSync Sample.emptyFs (logPath Sample.base 42) = None
  ∧ Forall (lineOk Sample.parse Sample.stringify) records
  ∧ NoDup (messageId <$> view)
  ∧ Sample.message 1 edited 101 (Some "v2") ∈ view
  ∧ (Sample.message 1 new 100 None ∉ view)
  ∧ (Sample.message 2 new 102 (Some "Hello ABC") ∉ view)
  ∧ view
    = [Sample.message 1 edited 101 (Some "v2");
       Sample.message 4 new 104 (Some "xyz")].
Proof.
  intros records view.
  assert (Fs.readFileSync Sample.emptyFs (logPath Sample.base 42) = None)
    as Hnew by reflexivity.
  assert (Forall (lineOk Sample.parse Sample.stringify) records) as Hok.
  { repeat (constructor; [split_and!; vm_compute; reflexivity|]). constructor. }
  destruct (canonical_after_appends Sample.parse Sample.stringify
              Sample.emptyFs Sample.base 42 records Hnew Hok) as [Hids Hview].
  split; [exact Hnew|]. split; [exact Hok|]. split; [exact Hids|].
  split; [|split; [|split]].
  - apply Hview.
    exists [Sample.message 1 new 100 None],
      [Sample.message 2 new 102 (Some "Hello ABC");
       Sample.marker [2] 300000;
       Sample.message 4 new 104 (Some "xyz")].
    split; [reflexivity|]. split; [discriminate|]. split.
    + repeat (constructor; [intros _; discriminate|]). constructor.
    + repeat (constructor;
                [intros [Hev (ids & Hids' & Hin)];
                 first [discriminate Hev
                       | injection Hids' as <-;
                         apply list_elem_of_singleton in Hin;
                         discriminate Hin]|]).
      constructor.
  - intros (earlier & later & Hsplit & _ & Hlast & _)%Hview.
    assert (Sample.message 1 edited 101 (Some "v2") ∈ later) as Hin.
    { destruct earlier as [|r0 earlier]; [injection Hsplit as <-; by left|].
      injection Hsplit as _ Hsplit.
      do 4 (destruct earlier as [|? earlier];
            [discriminate Hsplit|injection Hsplit as _ Hsplit]).
      by destruct earlier. }
    rewrite Forall_forall in Hlast.
    by apply (Hlast _ Hin).
  - intros (_ & _ & _ & _ & _ & Hnames)%Hview.
    rewrite Forall_forall in Hnames.
    apply (Hnames (Sample.marker [2] 300000)); [by do 3 right; left|].
    split; [reflexivity|]. exists [2]. split; [reflexivity|by left].
  - vm_compute. reflexivity.
Defined.

(** C1, as stated, fails: an edit of message 1 that arrives after the
    marker naming 1 is the last record of id 1 that is not a marker, and no
    marker after it names 1, yet the view does not hold it. *)
Lemma canonical_after_appends_counterexample :
  let r := Sample.message 1 edited 101 (Some "v2") in
  let records :=
    [Sample.message 1 new 100 None; Sample.marker [1] 200000; r] in
  let view :=
    canonical Sample.parse
      (appendAll Sample.stringify Sample.emptyFs Sample.base 42 records)
      Sample.base 42 in
  ¬ (∀ v earlier later,
       records = earlier ++ v :: later →
       event v ≠ deleted →
       Forall (λ r, event r ≠ deleted → messageId r ≠ messageId v) later →
       Forall (λ d, ¬ names d (messageId v)) later →
       v ∈ view).
Proof.
  intros r records view Hclaim.
  assert (r ∈ view) as Hin.
  { apply (Hclaim r [Sample.message 1 new 100 None; Sample.marker [1] 200000] []);
      [reflexivity|discriminate|constructor|constructor]. }
  assert (view = []) as Hview by (vm_compute; reflexivity).
  rewrite Hview in Hin. by apply elem_of_nil in Hin.
Qed.

(** The scenario of the specification: new, edited, then deleted. *)
Lemma deletion_marker_removes_witness :
  let a := Sample.message 1 new 100 None in
  let b := Sample.message 1 edited 101 (Some "v2") in
  let fs := appendAll Sample.stringify Sample.emptyFs Sample.base 42 [a; b] in
  logOk fs (logPath Sample.base 42)
  ∧ lineOk Sample.parse Sample.stringify (deletionMarker [1] "bc" 200000)
  ∧ 1 ∈ [1]
  ∧ (∀ v,
       v ∈ canonical Sample.parse
             (appendDeletionMarker Sample.stringify fs Sample.base 42 [1] "bc"
                200000)
             Sample.base 42 →
       messageId v ≠ 1)
  ∧ canonical Sample.parse
      (appendDeletionMarker Sample.stringify
         (appendBusinessMessage Sample.stringify
            (appendBusinessMessage Sample.stringify Sample.emptyFs
               Sample.base 42 a)
            Sample.base 42 b)
         Sample.base 42 [1] "bc" 200000)
      Sample.base 42 = [].
Proof.
  intros a b fs.
  assert (logOk fs (logPath Sample.base 42)) as Hlog by (vm_compute; reflexivity).
  assert (lineOk Sample.parse Sample.stringify (deletionMarker [1] "bc" 200000))
    as Hmarker by (split_and!; vm_compute; reflexivity).
  assert (1 ∈ [1]) as Hin by (by left).
  destruct (deletion_marker_removes Sample.parse Sample.stringify
              fs Sample.base 42 [1] "bc" 200000 1) as [Hgeneral _].
  destruct (deletion_marker_removes Sample.parse Sample.stringify
              Sample.emptyFs Sample.base 42 [1] "bc" 200000 1) as [_ Hscenario].
  split_and!; [exact Hlog|exact Hmarker|exact Hin| |].
  - exact (Hgeneral Hlog Hmarker Hin).
  - apply Hscenario; try reflexivity; split_and!; vm_compute; reflexivity.
Defined.

(** Four records, three canonical messages, pruned to two. *)
Lemma prune_count_witness :
  let records :=
    [Sample.message 1 new 100 None;
     Sample.message 1 edited 101 (Some "v2");
     Sample.message 2 new 102 (Some "Hello ABC");
     Sample.message 4 new 104 (Some "xyz")] in
  let fs := appendAll Sample.stringify Sample.emptyFs Sample.base 42 records in
  let opts := {| maxMessages := Some 2; maxAgeDays := None |} in
  let fs' :=
    maybePruneChatMessages Sample.parse Sample.stringify Sample.parseMeta
      Sample.stringifyMeta fs Sample.base 42 opts 0 in
  default 0 None <= 0
  ∧ Forall (lineOk Sample.parse Sample.stringify)
      (readJsonl Sample.parse fs (logPath Sample.base 42))
  ∧ 0 < 2 < Z.of_nat (length (readJsonl Sample.parse fs (logPath Sample.base 42)))
  ∧ readJsonl Sample.parse fs' (logPath Sample.base 42)
    = [Sample.message 2 new 102 (Some "Hello ABC");
       Sample.message 4 new 104 (Some "xyz")]
  ∧ maybePruneChatMessages Sample.parse Sample.stringify Sample.parseMeta
      Sample.stringifyMeta fs' Sample.base 42 opts 0 = fs'.
Proof.
  intros records fs opts fs'.
  assert (default 0 None <= 0) as Hage by (simpl; lia).
  assert (Forall (lineOk Sample.parse Sample.stringify)
            (readJsonl Sample.parse fs (logPath Sample.base 42))) as Hok.
  { assert (readJsonl Sample.parse fs (logPath Sample.base 42) = records) as ->
      by (vm_compute; reflexivity).
    repeat (constructor; [split_and!; vm_compute; reflexivity|]). constructor. }
  assert (0 < 2 < Z.of_nat (length (readJsonl Sample.parse fs (logPath Sample.base 42))))
    as Hn by (vm_compute; split; reflexivity).
  destruct (prune_count Sample.parse Sample.stringify Sample.parseMeta
              Sample.stringifyMeta fs Sample.base 42 2 None 0 Hage Hok)
    as (Hcut & _ & Hagain & _).
  split; [exact Hage|]. split; [exact Hok|]. split; [exact Hn|].
  split; [|exact Hagain].
  destruct (Hcut Hn) as [Hkept _].
  etrans; [exact Hkept|]. vm_compute. reflexivity.
Defined.

(** With no age limit, two records and a limit of five, the prune leaves
    its log of a record and its edit alone. *)
Lemma prune_within_limit_witness :
  let fs :=
    appendAll Sample.stringify Sample.emptyFs Sample.base 42
      [Sample.message 1 new 100 None; Sample.message 1 edited 101 (Some "v2")] in
  let opts := {| maxMessages := Some 5; maxAgeDays := None |} in
  default 0 (maxAgeDays opts) <= 0
  ∧ Z.of_nat (length (readJsonl Sample.parse fs (logPath Sample.base 42)))
    <= default 0 (maxMessages opts)
  ∧ maybePruneChatMessages Sample.parse Sample.stringify Sample.parseMeta
      Sample.stringifyMeta fs Sample.base 42 opts 0 = fs
  ∧ length (readJsonl Sample.parse fs (logPath Sample.base 42)) = 2%nat
  ∧ length (canonical Sample.parse fs Sample.base 42) = 1%nat.
Proof.
  intros fs opts.
  assert (default 0 (maxAgeDays opts) <= 0) as Hage by (simpl; lia).
  assert (Z.of_nat (length (readJsonl Sample.parse fs (logPath Sample.base 42)))
          <= default 0 (maxMessages opts)) as Hcount
    by (vm_compute; discriminate).
  split_and!; [exact Hage|exact Hcount| |vm_compute; reflexivity..].
  exact (prune_within_limit Sample.parse Sample.stringify Sample.parseMeta
           Sample.stringifyMeta fs Sample.base 42 opts 0 Hage Hcount).
Defined.

(** C3, as stated, fails: a record and its edit with [maxMessages = 5] stay
    two records in the log, while [min 5 canonical_count] is one. *)
Lemma prune_count_counterexample :
  let fs :=
    appendAll Sample.stringify Sample.emptyFs Sample.base 42
      [Sample.message 1 new 100 None; Sample.message 1 edited 101 (Some "v2")] in
  let opts := {| maxMessages := Some 5; maxAgeDays := None |} in
  let fs' :=
    maybePruneChatMessages Sample.parse Sample.stringify Sample.parseMeta
      Sample.stringifyMeta fs Sample.base 42 opts 0 in
  Z.of_nat (length (readJsonl Sample.parse fs' (logPath Sample.base 42)))
  ≠ Z.min 5 (Z.of_nat (length (canonical Sample.parse fs Sample.base 42))).
Proof. vm_compute. discriminate. Qed.

(** Messages 1 to 5 of a chat, read with both cursors and a limit. *)
Lemma load_bounds_witness :
  let fs := appendAll Sample.stringify Sample.emptyFs Sample.base 42 (Sample.run 5) in
  let opts := Some {| limit := Some 10; before := Some 5; after := Some 1 |} in
  let m := Sample.message 3 new 1003 None in
  m ∈ loadChatMessages Sample.parse fs Sample.base 42 opts
  ∧ opts ≫= after = Some 1
  ∧ messageId m > 1
  ∧ (default 50 (opts ≫= limit) <= 0
     ∨ Z.of_nat
         (length
            (filter (withinBounds (opts ≫= after) (opts ≫= before))
               (canonical Sample.parse fs Sample.base 42)))
       <= default 50 (opts ≫= limit))
  ∧ loadChatMessages Sample.parse fs Sample.base 42 opts
    = filter (withinBounds (opts ≫= after) (opts ≫= before))
        (canonical Sample.parse fs Sample.base 42)
  ∧ loadChatMessages Sample.parse Sample.emptyFs Sample.base 42 opts = [].
Proof.
  intros fs opts m.
  destruct (load_bounds Sample.parse fs Sample.base 42 opts)
    as (Honly & Hexact & _ & _).
  destruct (load_bounds Sample.parse Sample.emptyFs Sample.base 42 opts)
    as (_ & _ & Hmissing & _).
  assert (m ∈ loadChatMessages Sample.parse fs Sample.base 42 opts) as Hm.
  { apply (bool_decide_unpack _). vm_compute. exact I. }
  assert (opts ≫= after = Some 1) as Hafter by reflexivity.
  assert (default 50 (opts ≫= limit) <= 0
          ∨ Z.of_nat
              (length
                 (filter (withinBounds (opts ≫= after) (opts ≫= before))
                    (canonical Sample.parse fs Sample.base 42)))
            <= default 50 (opts ≫= limit)) as Hlim.
  { right. vm_compute. discriminate. }
  split_and!; [exact Hm|exact Hafter| |exact Hlim| |].
  - destruct (Honly m Hm) as (_ & Ha & _). exact (Ha 1 Hafter).
  - exact (Hexact Hlim).
  - apply Hmissing. reflexivity.
Defined.

(** C4, as stated, fails: of 51 messages, all within the cursors 0 and 100,
    a read with no limit given returns the last 50; message 1 is within
    both bounds and is not returned. *)
Lemma load_bounds_counterexample :
  let fs :=
    appendAll Sample.stringify Sample.emptyFs Sample.base 42 (Sample.run 51) in
  let opts := Some {| limit := None; before := Some 100; after := Some 0 |} in
  let m := Sample.message 1 new 1001 None in
  m ∈ canonical Sample.parse fs Sample.base 42
  ∧ messageId m > 0 ∧ messageId m < 100
  ∧ m ∉ loadChatMessages Sample.parse fs Sample.base 42 opts.
Proof.
  intros fs opts m. split_and!.
  - apply (bool_decide_unpack _). vm_compute. exact I.
  - vm_compute. reflexivity.
  - vm_compute. reflexivity.
  - apply (bool_decide_unpack _). vm_compute. exact I.
Qed.

(** Five messages read with a limit of two. *)
Lemma load_limit_witness :
  let fs := appendAll Sample.stringify Sample.emptyFs Sample.base 42 (Sample.run 5) in
  let opts := Some {| limit := Some 2; before := None; after := Some 1 |} in
  let filtered :=
    filter (withinBounds (opts ≫= after) (opts ≫= before))
      (canonical Sample.parse fs Sample.base 42) in
  0 < default 50 (opts ≫= limit) < Z.of_nat (length filtered)
  ∧ loadChatMessages Sample.parse fs Sample.base 42 opts
    = [Sample.message 4 new 1004 None; Sample.message 5 new 1005 None]
  ∧ length (loadChatMessages Sample.parse fs Sample.base 42 opts)
    = Z.to_nat (default 50 (opts ≫= limit)).
Proof.
  intros fs opts filtered.
  assert (0 < default 50 (opts ≫= limit) < Z.of_nat (length filtered)) as Hlim
    by (vm_compute; split; reflexivity).
  destruct (load_limit Sample.parse fs Sample.base 42 opts) as (Hcut & _ & _).
  destruct (Hcut Hlim) as [Hresult Hlen].
  split; [exact Hlim|]. split; [|exact Hlen].
  etrans; [exact Hresult|]. vm_compute. reflexivity.
Defined.


(** The scenario of the specification: two enabled connections updated at
    100 and 200 and a disabled one updated at 300. *)
Lemma active_connection_witness :
  let fs := Fs.State {[ connectionsPath Sample.base := "three" ]} [] in
  getActiveBusinessConnectionId Sample.parseStore fs Sample.base = Some "b"
  ∧ ∃ c,
      c ∈ (connections (loadBusinessConnections Sample.parseStore fs Sample.base)).*2
      ∧ Connection.id c = "b"
      ∧ Connection.isEnabled c = true
      ∧ ∀ c',
          c' ∈ (connections
                  (loadBusinessConnections Sample.parseStore fs Sample.base)).*2 →
          Connection.isEnabled c' = true →
          Connection.updatedAt c' <= Connection.updatedAt c.
Proof.
  intros fs.
  assert (getActiveBusinessConnectionId Sample.parseStore fs Sample.base
          = Some "b") as Hactive by (vm_compute; reflexivity).
  split; [exact Hactive|].
  destruct (active_connection Sample.parseStore fs Sample.base) as (_ & Hsome & _).
  exact (Hsome "b" Hactive).
Defined.

(** No document, a document that does not parse, [null], and a document of
    version 2 all load as the empty store. *)
Lemma load_connections_default_witness :
  let at_ raw := Fs.State {[ connectionsPath Sample.base := raw ]} [] in
  loadBusinessConnections Sample.parseStore Sample.emptyFs Sample.base = emptyStore
  ∧ loadBusinessConnections Sample.parseStore (at_ "{oops") Sample.base = emptyStore
  ∧ loadBusinessConnections Sample.parseStore (at_ "null") Sample.base = emptyStore
  ∧ loadBusinessConnections Sample.parseStore (at_ "v2") Sample.base = emptyStore
  ∧ version (loadBusinessConnections Sample.parseStore (at_ "three") Sample.base) = 1.
Proof.
  intros at_.
  destruct (load_connections_default Sample.parseStore Sample.emptyFs Sample.base)
    as (_ & Hmissing & _).
  destruct (load_connections_default Sample.parseStore (at_ "{oops") Sample.base)
    as (_ & _ & Hcorrupt).
  destruct (load_connections_default Sample.parseStore (at_ "null") Sample.base)
    as (_ & _ & Hnull).
  destruct (load_connections_default Sample.parseStore (at_ "v2") Sample.base)
    as (_ & _ & Hversion).
  destruct (load_connections_default Sample.parseStore (at_ "three") Sample.base)
    as (Hone & _).
  split_and!.
  - apply Hmissing. reflexivity.
  - destruct (Hcorrupt "{oops") as (H & _); [reflexivity|]. apply H. reflexivity.
  - destruct (Hnull "null") as (_ & H & _); [reflexivity|]. apply H. reflexivity.
  - destruct (Hversion "v2") as (_ & _ & H & _); [reflexivity|].
    apply (H (Some 2) (Some [])); [reflexivity|discriminate].
  - exact Hone.
Defined.

(** A chat with a stored last name and two messages; a new message arrives
    whose update carries [lastName = undefined]. *)
Lemma updateChatMeta_merge_witness :
  let fs := Fs.State {[ metaPath Sample.base 42 := "{42,Ann,Lee,2}" ]} [] in
  let partial :=
    {| p_chatId := None; p_firstName := None; p_lastName := Some None;
       p_username := None; p_lastMessageAt := None;
       incrementCount := Some true |} in
  let fs' :=
    updateChatMeta Sample.parseMeta Sample.stringifyMeta fs Sample.base 42 partial in
  existingChatMeta Sample.parseMeta fs Sample.base 42 = Sample.meta 2 (Some "Lee")
  ∧ existingChatMeta Sample.parseMeta fs' Sample.base 42 = Sample.meta 3 None
  ∧ lastName (existingChatMeta Sample.parseMeta fs' Sample.base 42) = None
  ∧ messageCount (existingChatMeta Sample.parseMeta fs' Sample.base 42) = 3.
Proof.
  intros fs partial fs'.
  destruct (updateChatMeta_merge Sample.parseMeta Sample.stringifyMeta
              fs Sample.base 42 partial)
    as (_ & Hback & _ & _ & _ & _ & _ & Herase & _ & _ & _ & _ & Hcount & _).
  assert (existingChatMeta Sample.parseMeta fs' Sample.base 42
          = updatedChatMeta (existingChatMeta Sample.parseMeta fs Sample.base 42)
              42 partial) as Hstored.
  { apply Hback. vm_compute. reflexivity. }
  split_and!.
  - vm_compute. reflexivity.
  - etrans; [exact Hstored|]. vm_compute. reflexivity.
  - rewrite Hstored. apply Herase. reflexivity.
  - rewrite Hstored. etrans; [apply Hcount; reflexivity|]. vm_compute. reflexivity.
Defined.

(** Why the statements about appends ask for a log of whole lines: after a
    torn last line the next record is glued to it and the line is skipped,
    here the deletion marker for message 1. *)
Lemma torn_line_swallows_append :
  let torn :=
    Sample.stringify (Sample.message 1 new 100 None) +:+ newline +:+ "{1,ed" in
  let fs := Fs.State {[ logPath Sample.base 42 := torn ]} [] in
  terminated torn = false
  ∧ canonical Sample.parse
      (appendDeletionMarker Sample.stringify fs Sample.base 42 [1] "bc" 200000)
      Sample.base 42
    = [Sample.message 1 new 100 None].
Proof. split; vm_compute; reflexivity. Qed.

(** ** The further statements at sample inputs *)

(** A line that does not parse, between two records. *)
Lemma readJsonl_skips_line_witness :
  let p := logPath Sample.base 42 in
  let a := Sample.stringify (Sample.message 1 new 100 None) +:+ newline in
  let b := Sample.stringify (Sample.message 2 new 102 (Some "Hello ABC")) +:+ newline in
  terminated a = true
  ∧ Js.split Js.LF "{oops" = ["{oops"]
  ∧ (Js.truthy (Js.trim "{oops") = false ∨ Sample.parse "{oops" = None)
  ∧ readJsonl Sample.parse
      (Fs.writeFileSync Sample.emptyFs p (a +:+ "{oops" +:+ newline +:+ b)) p
    = [Sample.message 1 new 100 None; Sample.message 2 new 102 (Some "Hello ABC")].
Proof.
  intros p a b.
  assert (terminated a = true) as Ha by (vm_compute; reflexivity).
  assert (Js.split Js.LF "{oops" = ["{oops"]) as Hline by (vm_compute; reflexivity).
  assert (Js.truthy (Js.trim "{oops") = false ∨ Sample.parse "{oops" = None)
    as Hbad by (right; vm_compute; reflexivity).
  split; [exact Ha|]. split; [exact Hline|]. split; [exact Hbad|].
  etrans;
    [exact (readJsonl_skips_line Sample.parse Sample.emptyFs p a "{oops" b
              Ha Hline Hbad)|].
  vm_compute. reflexivity.
Defined.

(** An edit that arrives after the deletion of its message. *)
Lemma append_deleted_id_ignored_witness :
  let fs :=
    appendAll Sample.stringify Sample.emptyFs Sample.base 42
      [Sample.message 1 new 100 None; Sample.marker [1] 200000] in
  let m := Sample.message 1 edited 101 (Some "v2") in
  logOk fs (logPath Sample.base 42)
  ∧ lineOk Sample.parse Sample.stringify m
  ∧ event m ≠ deleted
  ∧ messageId m ∈ collectDeleted (readJsonl Sample.parse fs (logPath Sample.base 42))
  ∧ canonical Sample.parse
      (appendBusinessMessage Sample.stringify fs Sample.base 42 m) Sample.base 42
    = [].
Proof.
  intros fs m.
  assert (logOk fs (logPath Sample.base 42)) as Hlog by (vm_compute; reflexivity).
  assert (lineOk Sample.parse Sample.stringify m) as Hm
    by (split_and!; vm_compute; reflexivity).
  assert (event m ≠ deleted) as Hev by discriminate.
  assert (messageId m
          ∈ collectDeleted (readJsonl Sample.parse fs (logPath Sample.base 42)))
    as Hdel by (apply (bool_decide_unpack _); vm_compute; exact I).
  split; [exact Hlog|]. split; [exact Hm|]. split; [exact Hev|].
  split; [exact Hdel|].
  etrans;
    [exact (append_deleted_id_ignored Sample.parse Sample.stringify fs
              Sample.base 42 m Hlog Hm Hev Hdel)|].
  vm_compute. reflexivity.
Defined.

(** An edit of a message that is there. *)
Lemma append_replaces_version_witness :
  let fs :=
    appendAll Sample.stringify Sample.emptyFs Sample.base 42
      [Sample.message 1 new 100 None; Sample.message 2 new 102 (Some "Hello ABC")] in
  let m := Sample.message 1 edited 101 (Some "v2") in
  let fs' := appendBusinessMessage Sample.stringify fs Sample.base 42 m in
  logOk fs (logPath Sample.base 42)
  ∧ lineOk Sample.parse Sample.stringify m
  ∧ event m ≠ deleted
  ∧ (messageId m
     ∉ collectDeleted (readJsonl Sample.parse fs (logPath Sample.base 42)))
  ∧ m ∈ canonical Sample.parse fs' Sample.base 42
  ∧ (Sample.message 1 new 100 None ∉ canonical Sample.parse fs' Sample.base 42).
Proof.
  intros fs m fs'.
  assert (logOk fs (logPath Sample.base 42)) as Hlog by (vm_compute; reflexivity).
  assert (lineOk Sample.parse Sample.stringify m) as Hm
    by (split_and!; vm_compute; reflexivity).
  assert (event m ≠ deleted) as Hev by discriminate.
  assert (messageId m
          ∉ collectDeleted (readJsonl Sample.parse fs (logPath Sample.base 42)))
    as Hlive by (apply (bool_decide_unpack _); vm_compute; exact I).
  pose proof (append_replaces_version Sample.parse Sample.stringify fs
                Sample.base 42 m Hlog Hm Hev Hlive) as Hview.
  split; [exact Hlog|]. split; [exact Hm|]. split; [exact Hev|].
  split; [exact Hlive|]. split.
  - apply Hview. by left.
  - intros Hold. apply Hview in Hold as [Heq|[_ Hne]]; [discriminate Heq|].
    by apply Hne.
Defined.

(** Four records, three canonical messages, a cap of two. *)
Lemma prune_canonical_witness :
  let fs :=
    appendAll Sample.stringify Sample.emptyFs Sample.base 42
      [Sample.message 1 new 100 None;
       Sample.message 1 edited 101 (Some "v2");
       Sample.message 2 new 102 (Some "Hello ABC");
       Sample.message 4 new 104 (Some "xyz")] in
  let opts := {| maxMessages := Some 2; maxAgeDays := None |} in
  0 < 2
  ∧ default 0 None <= 0
  ∧ Forall (lineOk Sample.parse Sample.stringify)
      (readJsonl Sample.parse fs (logPath Sample.base 42))
  ∧ canonical Sample.parse
      (maybePruneChatMessages Sample.parse Sample.stringify Sample.parseMeta
         Sample.stringifyMeta fs Sample.base 42 opts 0)
      Sample.base 42
    = [Sample.message 2 new 102 (Some "Hello ABC");
       Sample.message 4 new 104 (Some "xyz")].
Proof.
  intros fs opts.
  assert (0 < 2) as Hn by lia.
  assert (default 0 None <= 0) as Hage by (simpl; lia).
  assert (Forall (lineOk Sample.parse Sample.stringify)
            (readJsonl Sample.parse fs (logPath Sample.base 42))) as Hok.
  { assert (readJsonl Sample.parse fs (logPath Sample.base 42)
            = [Sample.message 1 new 100 None;
               Sample.message 1 edited 101 (Some "v2");
               Sample.message 2 new 102 (Some "Hello ABC");
               Sample.message 4 new 104 (Some "xyz")]) as ->
      by (vm_compute; reflexivity).
    repeat (constructor; [split_and!; vm_compute; reflexivity|]). constructor. }
  split; [exact Hn|]. split; [exact Hage|]. split; [exact Hok|].
  etrans;
    [exact (prune_canonical Sample.parse Sample.stringify Sample.parseMeta
              Sample.stringifyMeta fs Sample.base 42 2 None 0 Hn Hage Hok)|].
  vm_compute. reflexivity.
Defined.

(** An age limit of one day, read when message 2 is exactly a day old. *)
Lemma prune_leaves_no_expired_witness :
  let fs :=
    appendAll Sample.stringify Sample.emptyFs Sample.base 42
      [Sample.message 1 new 100 None;
       Sample.message 2 new 102 (Some "Hello ABC");
       Sample.message 4 new 104 (Some "xyz")] in
  let opts := {| maxMessages := None; maxAgeDays := Some 1 |} in
  let fs' :=
    maybePruneChatMessages Sample.parse Sample.stringify Sample.parseMeta
      Sample.stringifyMeta fs Sample.base 42 opts 86502000 in
  let r := Sample.message 2 new 102 (Some "Hello ABC") in
  default 0 (maxAgeDays opts) > 0
  ∧ Forall (lineOk Sample.parse Sample.stringify)
      (readJsonl Sample.parse fs (logPath Sample.base 42))
  ∧ r ∈ readJsonl Sample.parse fs' (logPath Sample.base 42)
  ∧ date r >= 86502000 `div` 1000 - default 0 (maxAgeDays opts) * 86400
  ∧ readJsonl Sample.parse fs' (logPath Sample.base 42)
    = [r; Sample.message 4 new 104 (Some "xyz")].
Proof.
  intros fs opts fs' r.
  assert (default 0 (maxAgeDays opts) > 0) as Hage by (vm_compute; reflexivity).
  assert (Forall (lineOk Sample.parse Sample.stringify)
            (readJsonl Sample.parse fs (logPath Sample.base 42))) as Hok.
  { assert (readJsonl Sample.parse fs (logPath Sample.base 42)
            = [Sample.message 1 new 100 None;
               Sample.message 2 new 102 (Some "Hello ABC");
               Sample.message 4 new 104 (Some "xyz")]) as ->
      by (vm_compute; reflexivity).
    repeat (constructor; [split_and!; vm_compute; reflexivity|]). constructor. }
  assert (r ∈ readJsonl Sample.parse fs' (logPath Sample.base 42)) as Hr
    by (apply (bool_decide_unpack _); vm_compute; exact I).
  split; [exact Hage|]. split; [exact Hok|]. split; [exact Hr|]. split.
  - exact (prune_leaves_no_expired Sample.parse Sample.stringify Sample.parseMeta
             Sample.stringifyMeta fs Sample.base 42 opts 86502000 r Hage Hok Hr).
  - vm_compute. reflexivity.
Defined.

(** A prune to two messages of a chat whose metadata counts four. *)
Lemma prune_syncs_count_witness :
  let known :=
    [Sample.chatMeta 42 (Some "Lee") 5000 4; Sample.chatMeta 42 (Some "Lee") 5000 2] in
  let meta := Sample.chatMeta 42 (Some "Lee") 5000 4 in
  let fs :=
    Fs.writeFileSync
      (appendAll Sample.stringify Sample.emptyFs Sample.base 42
         [Sample.message 1 new 100 None;
          Sample.message 1 edited 101 (Some "v2");
          Sample.message 2 new 102 (Some "Hello ABC");
          Sample.message 4 new 104 (Some "xyz")])
      (metaPath Sample.base 42) (Sample.showMeta meta) in
  let opts := {| maxMessages := Some 2; maxAgeDays := None |} in
  let fs' :=
    maybePruneChatMessages Sample.parse Sample.stringify (Sample.readMeta known)
      Sample.showMeta fs Sample.base 42 opts 0 in
  let count :=
    Z.of_nat (length (readJsonl Sample.parse fs' (logPath Sample.base 42))) in
  Forall (lineOk Sample.parse Sample.stringify)
    (readJsonl Sample.parse fs (logPath Sample.base 42))
  ∧ Fs.journal fs' ≠ Fs.journal fs
  ∧ Fs.readFileSync fs (metaPath Sample.base 42) = Some (Sample.showMeta meta)
  ∧ Sample.readMeta known (Sample.showMeta meta) = Some meta
  ∧ Sample.readMeta known (Sample.showMeta (setMessageCount meta count))
    = Some (setMessageCount meta count)
  ∧ existingChatMeta (Sample.readMeta known) fs' Sample.base 42
    = Sample.chatMeta 42 (Some "Lee") 5000 2.
Proof.
  intros known meta fs opts fs' count.
  assert (Forall (lineOk Sample.parse Sample.stringify)
            (readJsonl Sample.parse fs (logPath Sample.base 42))) as Hok.
  { assert (readJsonl Sample.parse fs (logPath Sample.base 42)
            = [Sample.message 1 new 100 None;
               Sample.message 1 edited 101 (Some "v2");
               Sample.message 2 new 102 (Some "Hello ABC");
               Sample.message 4 new 104 (Some "xyz")]) as ->
      by (vm_compute; reflexivity).
    repeat (constructor; [split_and!; vm_compute; reflexivity|]). constructor. }
  assert (Fs.journal fs' ≠ Fs.journal fs) as Hwritten
    by (apply (bool_decide_unpack _); vm_compute; exact I).
  assert (Fs.readFileSync fs (metaPath Sample.base 42)
          = Some (Sample.showMeta meta)) as Hread by (vm_compute; reflexivity).
  assert (Sample.readMeta known (Sample.showMeta meta) = Some meta) as Hparse
    by (vm_compute; reflexivity).
  assert (Sample.readMeta known (Sample.showMeta (setMessageCount meta count))
          = Some (setMessageCount meta count)) as Hround
    by (vm_compute; reflexivity).
  split; [exact Hok|]. split; [exact Hwritten|]. split; [exact Hread|].
  split; [exact Hparse|]. split; [exact Hround|].
  destruct (prune_syncs_count Sample.parse Sample.stringify
              (Sample.readMeta known) Sample.showMeta fs Sample.base 42 opts 0)
    as [_ Hsync].
  etrans;
    [exact (Hsync (Sample.showMeta meta) meta Hok Hwritten Hread Hparse Hround)|].
  vm_compute. reflexivity.
Defined.

(** A prune of chat 42 beside a connections document. *)
Lemma prune_frame_witness :
  let fs :=
    Fs.writeFileSync
      (appendAll Sample.stringify Sample.emptyFs Sample.base 42
         [Sample.message 1 new 100 None;
          Sample.message 2 new 102 (Some "Hello ABC");
          Sample.message 4 new 104 (Some "xyz")])
      (connectionsPath Sample.base) "three" in
  let opts := {| maxMessages := Some 2; maxAgeDays := None |} in
  let fs' :=
    maybePruneChatMessages Sample.parse Sample.stringify Sample.parseMeta
      Sample.stringifyMeta fs Sample.base 42 opts 0 in
  connectionsPath Sample.base ≠ logPath Sample.base 42
  ∧ connectionsPath Sample.base ≠ metaPath Sample.base 42
  ∧ Fs.journal fs' ≠ Fs.journal fs
  ∧ Fs.readFileSync fs' (connectionsPath Sample.base) = Some "three".
Proof.
  intros fs opts fs'.
  assert (connectionsPath Sample.base ≠ logPath Sample.base 42) as Hlog
    by (apply (bool_decide_unpack _); vm_compute; exact I).
  assert (connectionsPath Sample.base ≠ metaPath Sample.base 42) as Hmeta
    by (apply (bool_decide_unpack _); vm_compute; exact I).
  split; [exact Hlog|]. split; [exact Hmeta|]. split.
  - apply (bool_decide_unpack _). vm_compute. exact I.
  - etrans;
      [exact (prune_frame Sample.parse Sample.stringify Sample.parseMeta
                Sample.stringifyMeta fs Sample.base 42 opts 0
                (connectionsPath Sample.base) Hlog Hmeta)|].
    vm_compute. reflexivity.
Defined.

(** A message in chat 42 beside the log and the metadata of chat 43. *)
Lemma onBusinessMessage_other_chat_witness :
  let known := [Sample.chatMeta 43 None 4000 1; Sample.chatMeta 42 None 5000 1] in
  let fs :=
    Fs.writeFileSync
      (appendAll Sample.stringify Sample.emptyFs Sample.base 43
         [Sample.message 2 new 102 (Some "Hello ABC")])
      (metaPath Sample.base 43) (Sample.showMeta (Sample.chatMeta 43 None 4000 1)) in
  let fs' :=
    onBusinessMessage Sample.stringify (Sample.readMeta known) Sample.showMeta
      Sample.businessOn fs Sample.base (Some Sample.photo) 103000 5000 in
  43 ≠ chat_id (msg_chat Sample.photo)
  ∧ Fs.journal fs' ≠ Fs.journal fs
  ∧ canonical Sample.parse fs' Sample.base 43
    = [Sample.message 2 new 102 (Some "Hello ABC")]
  ∧ existingChatMeta (Sample.readMeta known) fs' Sample.base 43
    = Sample.chatMeta 43 None 4000 1.
Proof.
  intros known fs fs'.
  assert (43 ≠ chat_id (msg_chat Sample.photo)) as Hother by discriminate.
  destruct (onBusinessMessage_other_chat Sample.parse Sample.stringify
              (Sample.readMeta known) Sample.showMeta Sample.businessOn fs
              Sample.base Sample.photo 103000 5000 43 Hother)
    as [Hview Hmeta].
  split; [exact Hother|]. split; [|split].
  - apply (bool_decide_unpack _). vm_compute. exact I.
  - etrans; [exact Hview|]. vm_compute. reflexivity.
  - etrans; [exact Hmeta|]. vm_compute. reflexivity.
Defined.

(** The first message of a chat. *)
Lemma onBusinessMessage_stores_witness :
  let known := [Sample.chatMeta 42 None 5000 1] in
  let stored := extractStoredMessage Sample.photo "bc" new 103000 in
  let before := existingChatMeta (Sample.readMeta known) Sample.emptyFs Sample.base 42 in
  let updated :=
    updatedChatMeta before 42
      {| p_chatId := None;
         p_firstName :=
           Some (Some (default "" (chat_first_name (msg_chat Sample.photo))));
         p_lastName := Some (chat_last_name (msg_chat Sample.photo));
         p_username := Some (chat_username (msg_chat Sample.photo));
         p_lastMessageAt := Some (Some 5000);
         incrementCount := Some true |} in
  let fs' :=
    onBusinessMessage Sample.stringify (Sample.readMeta known) Sample.showMeta
      Sample.businessOn Sample.emptyFs Sample.base (Some Sample.photo) 103000 5000 in
  businessEnabled Sample.businessOn = Some true
  ∧ business_connection_id Sample.photo = Some "bc"
  ∧ Js.truthy "bc" = true
  ∧ logOk Sample.emptyFs (logPath Sample.base 42)
  ∧ lineOk Sample.parse Sample.stringify stored
  ∧ Sample.readMeta known (Sample.showMeta updated) = Some updated
  ∧ stored = Sample.captioned 3 103 "abcd"
  ∧ readJsonl Sample.parse fs' (logPath Sample.base 42)
    = [Sample.captioned 3 103 "abcd"]
  ∧ messageCount (existingChatMeta (Sample.readMeta known) fs' Sample.base 42) = 1
  ∧ lastMessageAt (existingChatMeta (Sample.readMeta known) fs' Sample.base 42)
    = Some 5000.
Proof.
  intros known stored before updated fs'.
  assert (businessEnabled Sample.businessOn = Some true) as Hon by reflexivity.
  assert (business_connection_id Sample.photo = Some "bc") as Hbc by reflexivity.
  assert (Js.truthy "bc" = true) as Htruthy by reflexivity.
  assert (logOk Sample.emptyFs (logPath Sample.base 42)) as Hlog
    by (vm_compute; reflexivity).
  assert (lineOk Sample.parse Sample.stringify stored) as Hline
    by (split_and!; vm_compute; reflexivity).
  assert (Sample.readMeta known (Sample.showMeta updated) = Some updated)
    as Hround by (vm_compute; reflexivity).
  destruct (onBusinessMessage_stores Sample.parse Sample.stringify
              (Sample.readMeta known) Sample.showMeta Sample.businessOn
              Sample.emptyFs Sample.base Sample.photo "bc" 103000 5000
              Hon Hbc Htruthy Hlog Hline Hround)
    as (Hrecords & Hcount & Hlast & _).
  split; [exact Hon|]. split; [exact Hbc|]. split; [exact Htruthy|].
  split; [exact Hlog|]. split; [exact Hline|]. split; [exact Hround|].
  split; [vm_compute; reflexivity|]. split; [|split].
  - etrans; [exact Hrecords|]. vm_compute. reflexivity.
  - etrans; [exact Hcount|]. vm_compute. reflexivity.
  - exact Hlast.
Defined.


(** A search with a limit of zero, for a text that is there. *)
Lemma search_nonpositive_limit_witness :
  let fs :=
    appendAll Sample.stringify Sample.emptyFs Sample.base 42
      [Sample.captioned 3 103 "abcd"] in
  let opts := Some {| searchChatId := None; searchLimit := Some 0 |} in
  default 20 (opts ≫= searchLimit) <= 0
  ∧ searchBusinessMessages Sample.parse Sample.number fs Sample.base "abc" opts = []
  ∧ searchBusinessMessages Sample.parse Sample.number fs Sample.base "abc" None
    = [{| found := Sample.captioned 3 103 "abcd"; foundIn := 42 |}].
Proof.
  intros fs opts.
  assert (default 20 (opts ≫= searchLimit) <= 0) as Hlimit by (simpl; lia).
  split; [exact Hlimit|]. split.
  - exact (search_nonpositive_limit Sample.parse Sample.number fs Sample.base
             "abc" opts Hlimit).
  - vm_compute. reflexivity.
Defined.

(** Two chat directories, one with metadata that does not parse. *)
Lemma listBusinessChats_members_witness :
  let known := [Sample.chatMeta 42 None 5000 1] in
  let fs :=
    Fs.writeFileSync
      (Fs.writeFileSync Sample.emptyFs (metaPath Sample.base 42)
         (Sample.showMeta (Sample.chatMeta 42 None 5000 1)))
      (metaPath Sample.base 43) "{oops" in
  Sample.chatMeta 42 None 5000 1
    ∈ listBusinessChats (Sample.readMeta known) fs Sample.base
  ∧ (length (listBusinessChats (Sample.readMeta known) fs Sample.base) ≤ 2)%nat
  ∧ listBusinessChats (Sample.readMeta known) Sample.emptyFs Sample.base = [].
Proof.
  intros known fs.
  destruct (listBusinessChats_members (Sample.readMeta known) fs Sample.base)
    as (Hiff & _ & Hlength).
  destruct (listBusinessChats_members (Sample.readMeta known) Sample.emptyFs
              Sample.base) as (_ & Hmissing & _).
  split; [|split].
  - apply Hiff. exists ["43"; "42"], "42". split; [vm_compute; reflexivity|].
    split; [by right; left|]. vm_compute. reflexivity.
  - apply (Hlength ["43"; "42"]). vm_compute. reflexivity.
  - apply Hmissing. vm_compute. reflexivity.
Defined.

(** Two chats, the one written first being the more recent. *)
Lemma listBusinessChats_sorted_witness :
  let known := [Sample.chatMeta 42 None 5000 1; Sample.chatMeta 43 None 9000 1] in
  let fs :=
    Fs.writeFileSync
      (Fs.writeFileSync Sample.emptyFs (metaPath Sample.base 42)
         (Sample.showMeta (Sample.chatMeta 42 None 5000 1)))
      (metaPath Sample.base 43)
      (Sample.showMeta (Sample.chatMeta 43 None 9000 1)) in
  (∀ meta,
     meta ∈ listBusinessChats (Sample.readMeta known) fs Sample.base →
     is_Some (lastMessageAt meta))
  ∧ listBusinessChats (Sample.readMeta known) fs Sample.base
    = [Sample.chatMeta 43 None 9000 1; Sample.chatMeta 42 None 5000 1]
  ∧ StronglySorted
      (λ a b, ∀ x y, lastMessageAt a = Some x → lastMessageAt b = Some y → y <= x)
      (listBusinessChats (Sample.readMeta known) fs Sample.base).
Proof.
  intros known fs.
  assert (listBusinessChats (Sample.readMeta known) fs Sample.base
          = [Sample.chatMeta 43 None 9000 1; Sample.chatMeta 42 None 5000 1])
    as Hchats by (vm_compute; reflexivity).
  assert (∀ meta,
            meta ∈ listBusinessChats (Sample.readMeta known) fs Sample.base →
            is_Some (lastMessageAt meta)) as Hsome.
  { intros meta Hin.
    eapply (proj1 (Forall_forall (λ m, is_Some (lastMessageAt m)) _));
      [|exact Hin].
    rewrite Hchats.
    apply Forall_cons; split; [exact (ex_intro _ 9000 eq_refl)|].
    apply Forall_cons; split; [exact (ex_intro _ 5000 eq_refl)|].
    apply Forall_nil_2. }
  split; [exact Hsome|]. split; [exact Hchats|].
  exact (listBusinessChats_sorted (Sample.readMeta known) fs Sample.base Hsome).
Defined.

(** The metadata of a new chat. *)
Lemma updateChatMeta_listed_witness :
  let known := [Sample.chatMeta 42 None 5000 1] in
  let partial :=
    {| p_chatId := None; p_firstName := Some (Some "Ann"); p_lastName := None;
       p_username := None; p_lastMessageAt := Some (Some 5000);
       incrementCount := Some true |} in
  let updated :=
    updatedChatMeta
      (existingChatMeta (Sample.readMeta known) Sample.emptyFs Sample.base 42)
      42 partial in
  Sample.readMeta known (Sample.showMeta updated) = Some updated
  ∧ updated = Sample.chatMeta 42 None 5000 1
  ∧ updated
    ∈ listBusinessChats (Sample.readMeta known)
        (updateChatMeta (Sample.readMeta known) Sample.showMeta Sample.emptyFs
           Sample.base 42 partial)
        Sample.base.
Proof.
  intros known partial updated.
  assert (Sample.readMeta known (Sample.showMeta updated) = Some updated)
    as Hround by (vm_compute; reflexivity).
  split; [exact Hround|]. split; [vm_compute; reflexivity|].
  exact (updateChatMeta_listed (Sample.readMeta known) Sample.showMeta
           Sample.emptyFs Sample.base 42 partial Hround).
Defined.

(** A second connection saved beside a first, and a connection whose id
    is [__proto__]. *)
Lemma save_then_load_witness :
  let first := Sample.connection "a" true 100 in
  let conn := Sample.connection "b" true 200 in
  let odd := Sample.connection "__proto__" true 300 in
  let known :=
    [{| version := 1; connections := [("a", first)] |};
     {| version := 1; connections := [("a", first); ("b", conn)] |}] in
  let fs :=
    Fs.State {[ connectionsPath Sample.base := "1:a+100" ]} [] in
  let store := loadBusinessConnections (Sample.readStore known) fs Sample.base in
  let saved c :=
    {| version := 1;
       connections := Js.objectSet (Connection.id c) c (connections store) |} in
  let loaded c :=
    loadBusinessConnections (Sample.readStore known)
      (saveBusinessConnection (Sample.readStore known) Sample.showStore fs
         Sample.base c)
      Sample.base in
  Sample.readStore known (Sample.showStore (saved conn))
  = Some (ParsedValue (Some 1) (Some (connections (saved conn))))
  ∧ Sample.readStore known (Sample.showStore (saved odd))
    = Some (ParsedValue (Some 1) (Some (connections (saved odd))))
  ∧ version (loaded conn) = 1
  ∧ Js.objectGet "b" (connections (loaded conn)) = Some conn
  ∧ Js.objectGet "a" (connections (loaded conn)) = Some first
  ∧ NoDup (connections (loaded conn)).*1
  ∧ connections (loaded odd) = [("a", first)].
Proof.
  intros first conn odd known fs store saved loaded.
  assert (Sample.readStore known (Sample.showStore (saved conn))
          = Some (ParsedValue (Some 1) (Some (connections (saved conn)))))
    as Hround by (vm_compute; reflexivity).
  assert (Sample.readStore known (Sample.showStore (saved odd))
          = Some (ParsedValue (Some 1) (Some (connections (saved odd)))))
    as Hodd by (vm_compute; reflexivity).
  destruct (save_then_load (Sample.readStore known) Sample.showStore fs
              Sample.base conn Hround)
    as (Hversion & Hconn & _ & Hother & Hkeys).
  destruct (save_then_load (Sample.readStore known) Sample.showStore fs
              Sample.base odd Hodd)
    as (_ & _ & Hlost & _ & _).
  assert ((connections store).*1 = ["a"]) as Hkey by (vm_compute; reflexivity).
  split; [exact Hround|]. split; [exact Hodd|]. split; [exact Hversion|].
  split; [|split; [|split]].
  - apply Hconn. discriminate.
  - etrans; [apply (Hother "a"); discriminate|]. vm_compute. reflexivity.
  - assert (NoDup (connections store).*1) as Hbefore
      by (rewrite Hkey; apply NoDup_singleton).
    exact (Hkeys Hbefore).
  - assert (Js.PROTO ∉ (connections store).*1) as Hown.
    { rewrite Hkey. intros Hin. apply list_elem_of_singleton in Hin.
      discriminate Hin. }
    etrans; [exact (Hlost eq_refl Hown)|]. vm_compute. reflexivity.
Defined.

(** A first connection, saved where there is no document yet, and one
    whose id is [__proto__]. *)
Lemma save_over_unreadable_witness :
  let conn := Sample.connection "a" true 100 in
  let odd := Sample.connection "__proto__" true 300 in
  loadBusinessConnections Sample.parseStore Sample.emptyFs Sample.base = emptyStore
  ∧ Fs.readFileSync
      (saveBusinessConnection Sample.parseStore Sample.showStore Sample.emptyFs
         Sample.base conn)
      (connectionsPath Sample.base)
    = Some "1:a+100"
  ∧ Fs.readFileSync
      (saveBusinessConnection Sample.parseStore Sample.showStore Sample.emptyFs
         Sample.base odd)
      (connectionsPath Sample.base)
    = Some "1:".
Proof.
  intros conn odd.
  assert (loadBusinessConnections Sample.parseStore Sample.emptyFs Sample.base
          = emptyStore) as Hempty by (vm_compute; reflexivity).
  split; [exact Hempty|]. split.
  - etrans;
      [exact (save_over_unreadable Sample.parseStore Sample.showStore
                Sample.emptyFs Sample.base conn Hempty)|].
    vm_compute. reflexivity.
  - etrans;
      [exact (save_over_unreadable Sample.parseStore Sample.showStore
                Sample.emptyFs Sample.base odd Hempty)|].
    vm_compute. reflexivity.
Defined.

(** The operator connects at 200, beside a connection updated at 100. *)
Lemma connect_becomes_active_witness :
  let other := Sample.connection "b" true 100 in
  let conn := Sample.operator true in
  let known :=
    [{| version := 1; connections := [("b", other)] |};
     {| version := 1;
        connections := [("b", other); ("a", storedConnection conn 200)] |}] in
  let fs := Fs.State {[ connectionsPath Sample.base := "1:b+100" ]} [] in
  let store := loadBusinessConnections (Sample.readStore known) fs Sample.base in
  let saved :=
    {| version := 1;
       connections :=
         Js.objectSet (connection_id conn) (storedConnection conn 200)
           (connections store) |} in
  connection_id conn ≠ Js.PROTO
  ∧ is_enabled conn = true
  ∧ (∀ c, c ∈ (connections store).*2 →
          Connection.isEnabled c = true → Connection.updatedAt c < 200)
  ∧ Sample.readStore known (Sample.showStore saved)
    = Some (ParsedValue (Some 1) (Some (connections saved)))
  ∧ getActiveBusinessConnectionId (Sample.readStore known) fs Sample.base
    = Some "b"
  ∧ getActiveBusinessConnectionId (Sample.readStore known)
      (onBusinessConnection (Sample.readStore known) Sample.showStore fs
         Sample.base (Some conn) 200)
      Sample.base
    = Some "a".
Proof.
  intros other conn known fs store saved.
  assert (connection_id conn ≠ Js.PROTO) as Hid by discriminate.
  assert (is_enabled conn = true) as Henabled by reflexivity.
  assert (∀ c, c ∈ (connections store).*2 →
               Connection.isEnabled c = true → Connection.updatedAt c < 200)
    as Hlatest.
  { intros c Hin _.
    eapply (proj1 (Forall_forall (λ c, Connection.updatedAt c < 200) _));
      [|exact Hin].
    assert ((connections store).*2 = [other]) as -> by (vm_compute; reflexivity).
    apply Forall_cons; split; [reflexivity|]. apply Forall_nil_2. }
  assert (Sample.readStore known (Sample.showStore saved)
          = Some (ParsedValue (Some 1) (Some (connections saved)))) as Hround
    by (vm_compute; reflexivity).
  split; [exact Hid|]. split; [exact Henabled|]. split; [exact Hlatest|].
  split; [exact Hround|]. split; [vm_compute; reflexivity|].
  exact (connect_becomes_active (Sample.readStore known) Sample.showStore fs
           Sample.base conn 200 Hid Henabled Hlatest Hround).
Defined.

(** The operator disconnects at 200, leaving an older connection. *)
Lemma disconnect_not_active_witness :
  let other := Sample.connection "b" true 50 in
  let conn := Sample.operator false in
  let known :=
    [{| version := 1;
        connections := [("a", Sample.connection "a" true 100); ("b", other)] |};
     {| version := 1;
        connections := [("a", storedConnection conn 200); ("b", other)] |}] in
  let fs := Fs.State {[ connectionsPath Sample.base := "1:a+100,b+50" ]} [] in
  let store := loadBusinessConnections (Sample.readStore known) fs Sample.base in
  let saved :=
    {| version := 1;
       connections :=
         Js.objectSet (connection_id conn) (storedConnection conn 200)
           (connections store) |} in
  let fs' :=
    onBusinessConnection (Sample.readStore known) Sample.showStore fs
      Sample.base (Some conn) 200 in
  is_enabled conn = false
  ∧ NoDup (connections store).*1
  ∧ Forall (λ kv, kv.1 = Connection.id kv.2) (connections store)
  ∧ Sample.readStore known (Sample.showStore saved)
    = Some (ParsedValue (Some 1) (Some (connections saved)))
  ∧ getActiveBusinessConnectionId (Sample.readStore known) fs Sample.base
    = Some "a"
  ∧ getActiveBusinessConnectionId (Sample.readStore known) fs' Sample.base
    ≠ Some (connection_id conn)
  ∧ getActiveBusinessConnectionId (Sample.readStore known) fs' Sample.base
    = Some "b".
Proof.
  intros other conn known fs store saved fs'.
  assert (is_enabled conn = false) as Hdisabled by reflexivity.
  assert (connections store
          = [("a", Sample.connection "a" true 100); ("b", other)]) as Hstore
    by (vm_compute; reflexivity).
  assert (NoDup (connections store).*1) as Hkeys.
  { rewrite Hstore. apply (bool_decide_unpack _). vm_compute. exact I. }
  assert (Forall (λ kv, kv.1 = Connection.id kv.2) (connections store)) as Hids.
  { rewrite Hstore.
    apply Forall_cons; split; [reflexivity|].
    apply Forall_cons; split; [reflexivity|]. apply Forall_nil_2. }
  assert (Sample.readStore known (Sample.showStore saved)
          = Some (ParsedValue (Some 1) (Some (connections saved)))) as Hround
    by (vm_compute; reflexivity).
  split; [exact Hdisabled|]. split; [exact Hkeys|]. split; [exact Hids|].
  split; [exact Hround|]. split; [vm_compute; reflexivity|]. split.
  - exact (disconnect_not_active (Sample.readStore known) Sample.showStore fs
             Sample.base conn 200 Hdisabled Hkeys Hids Hround).
  - vm_compute. reflexivity.
Defined.
